(** * The status-line renderer of pv (src/pv/display.c)

    A shallow embedding of the display code of pv: the SI scaler
    [pv__si_prefix], the size formatter [pv__sizestr], the format compiler
    [pv__format_init], the average-rate window [update_history_avg_rate] and
    the renderer [pv__format], followed by the properties of the
    specification that are stated about them.

    Conventions of the embedding.
    - [long], [long long] and [int] values are integers in [Z]; signed
      overflow is undefined in C and is outside the model.  Where the source
      computes in [unsigned int] or converts to [int], the reduction modulo
      2^32 is written out ([u32], [to_int]).
    - [long double] values are exact rationals in [Q]: the model covers the
      arithmetic the source writes, not the rounding of the platform.
    - A C string is the list of its characters before the terminating NUL.
    - A pointer stored in the compiled format is a [cptr]: NULL, one of the
      [str_*] scratch buffers of the state, or an offset into the format
      string. *)

From Stdlib Require Import ZArith QArith Qround Qminmax Ascii String DecimalString Lia Lqa.
From stdpp Require Import base list functions.

Local Open Scope Z_scope.

(** ** C strings and the libc calls the display code relies on *)

Module CStr.

Definition NUL : ascii := "000"%char.

Definition lit (s : string) : list ascii := list_ascii_of_string s.

(** [s[i]]; at [i = strlen s] this reads the terminator. *)
Definition char_at (s : list ascii) (i : nat) : ascii := nth i s NUL.

Definition chr_eqb (a b : ascii) : bool := Ascii.eqb a b.
Arguments chr_eqb : simpl never.

(** [strlen(s)], stopping at an embedded NUL like the C function does. *)
Fixpoint strlen (s : list ascii) : nat :=
  match s with
  | [] => O
  | c :: s' => if chr_eqb c NUL then O else S (strlen s')
  end.

(** [strchr(s, c) - s] for a non-NUL [c], or [None] for a NULL result. *)
Fixpoint strchr (s : list ascii) (c : ascii) : option nat :=
  match s with
  | [] => None
  | d :: s' =>
      if chr_eqb d NUL then None
      else if chr_eqb d c then Some O
      else option_map S (strchr s' c)
  end.

(** [isdigit] and [isprint] in the C locale. *)
Definition isdigit (c : ascii) : bool :=
  let n := Z.of_nat (nat_of_ascii c) in (48 <=? n) && (n <=? 57).

Definition isprint (c : ascii) : bool :=
  let n := Z.of_nat (nat_of_ascii c) in (32 <=? n) && (n <=? 126).

Definition spaces (n : nat) : list ascii := replicate n " "%char.

(** [strncat(dst, src, n)]: at most [n] characters of [src] are appended. *)
Definition strncat (dst src : list ascii) (n : Z) : list ascii :=
  dst ++ take (Z.to_nat n) (take (strlen src) src).

(** Modelled from the spec: [pv_strlcat] is declared in pv.h ("append a
    string to a buffer, constraining the buffer to a particular size and
    ensuring termination") and defined outside display.c.  The result never
    holds more than [size - 1] characters. *)
Definition pv_strlcat (dst src : list ascii) (size : Z) : list ascii :=
  dst ++ take (Z.to_nat (size - 1) - length dst) src.

(** Modelled from the spec: [pv_snprintf] is declared in pv.h as a wrapper
    for [snprintf]; the formatted text is cut to [size - 1] characters. *)
Definition pv_snprintf (size : Z) (text : list ascii) : list ascii :=
  take (Z.to_nat (size - 1)) text.

(** Conversions of [printf]: [%ld], a minimum field width filled on the left
    ([%4ld], [%2ld] with blanks, [%02ld] with zeros; at width 2 the zero fill
    never has to pass a sign), and a precision on [%s]. *)
Definition fmt_ld (n : Z) : list ascii :=
  lit (NilZero.string_of_int (Z.to_int n)).

Definition pad_left (w : nat) (fill : ascii) (s : list ascii) : list ascii :=
  replicate (w - length s) fill ++ s.

Definition fmt_ld_w (w : nat) (n : Z) : list ascii := pad_left w " "%char (fmt_ld n).
Definition fmt_02ld (n : Z) : list ascii := pad_left 2 "0"%char (fmt_ld n).
Definition fmt_s_prec (p : nat) (s : list ascii) : list ascii := take p s.

(** Reduction of an [unsigned int] result and conversion to [int]. *)
Definition u32 (x : Z) : Z := x mod 2 ^ 32.
Definition to_int (x : Z) : Z :=
  let y := x mod 2 ^ 32 in if y <? 2 ^ 31 then y else y - 2 ^ 32.

(** C division and remainder truncate towards zero. *)
Definition c_div (a b : Z) : Z := Z.quot a b.
Definition c_mod (a b : Z) : Z := Z.rem a b.

End CStr.
Import CStr.

(** ** long double as exact rationals *)

Module LongDouble.

Definition ld_lt (x y : Q) : bool := negb (Qle_bool y x).
Definition ld_le (x y : Q) : bool := Qle_bool x y.
Definition ld_eq (x y : Q) : bool := Qeq_bool x y.

(** [(long) x]: the fractional part is discarded. *)
Definition ld_to_long (x : Q) : Z := Z.quot (Qnum x) (Z.pos (Qden x)).

End LongDouble.
Import LongDouble.

(** ** The SI scaler *)

(** [_()] is gettext; the tables are those of the untranslated program. *)
Definition pfx_000 : list ascii := lit "yzafpnum kMGTPEZY".
Definition pfx_024 : list ascii := lit "yzafpnum KMGTPEZY".

Definition pfx_middle (pfx : list ascii) : nat :=
  default O (strchr pfx " "%char).

(** First loop of [pv__si_prefix]: while the value is above the cutoff and
    the entry after [i] is not the terminator, step [i] up, divide and take
    the entry as prefix.  [i] is stepped before the entry is tested, so the
    loop can leave it on the terminator.  [above] holds the table entries
    after position [i]. *)
Fixpoint si_up (ratio cutoff : Q) (above : list ascii)
    (value : Q) (i : nat) (p0 : ascii) : Q * nat * ascii :=
  if ld_lt cutoff value then
    match above with
    | [] => (value, S i, p0)
    | c :: above' =>
        if chr_eqb c NUL then (value, S i, p0)
        else si_up ratio cutoff above' (value / ratio)%Q (S i) c
    end
  else (value, i, p0).

(** Second loop: while the value is below 1.0 and stepping [i] down does not
    leave the table, multiply and take the entry as prefix. *)
Fixpoint si_down (pfx : list ascii) (ratio : Q)
    (value : Q) (i : nat) (p0 : ascii) : Q * ascii :=
  if ld_lt value 1 then
    match i with
    | O => (value, p0)
    | S i' => si_down pfx ratio (value * ratio)%Q i' (char_at pfx i')
    end
  else (value, p0).

(** [pv__si_prefix(&value, prefix, ratio, is_bytes)]: the new [*value] and
    the string left in [prefix]. *)
Definition pv__si_prefix (value : Q) (ratio : Q) (is_bytes : bool)
    : Q * list ascii :=
  let pfx := if is_bytes then pfx_024 else pfx_000 in
  let i := pfx_middle pfx in
  if ld_eq 0 value then
    (value, if is_bytes then lit "  " else lit " ")
  else
    let cutoff := (ratio * 0.97)%Q in
    let '(v1, i1, p1) := si_up ratio cutoff (drop (S i) pfx) value i " "%char in
    let '(v2, p2) := si_down pfx ratio v1 i1 p1 in
    if is_bytes then
      (v2, [p2; if chr_eqb p2 " "%char then " "%char else "i"%char])
    else (v2, [p2]).

(** ** What display.c takes from elsewhere *)

(** The constants of pv-internal.h, which display.c includes: the sizes of
    the scratch buffers, the capacity of the compiled format and the bits of
    [components_used].  They are parameters of the development. *)
Class PvInternal := {
  PV_SIZEOF_STR_NAME : Z;
  PV_SIZEOF_STR_TRANSFERRED : Z;
  PV_SIZEOF_STR_BUFPERCENT : Z;
  PV_SIZEOF_STR_TIMER : Z;
  PV_SIZEOF_STR_RATE : Z;
  PV_SIZEOF_STR_AVERAGE_RATE : Z;
  PV_SIZEOF_STR_PROGRESS : Z;
  PV_SIZEOF_STR_ETA : Z;
  PV_SIZEOF_STR_FINETA : Z;
  PV_SIZEOF_LASTOUTPUT_BUFFER : Z;
  PV_FORMAT_ARRAY_MAX : Z;
  PV_DISPLAY_PROGRESS : Z;
  PV_DISPLAY_TIMER : Z;
  PV_DISPLAY_ETA : Z;
  PV_DISPLAY_FINETA : Z;
  PV_DISPLAY_RATE : Z;
  PV_DISPLAY_AVERAGERATE : Z;
  PV_DISPLAY_BYTES : Z;
  PV_DISPLAY_NAME : Z;
  PV_DISPLAY_BUFPERCENT : Z;
  PV_DISPLAY_OUTPUTBUF : Z;
  HAVE_SPLICE : bool
}.

(** The two [printf] conversions of a [long double] that display.c uses;
    their digits are the C library's business. *)
Class Libc := {
  fmt_Lg : Q -> list ascii;      (* the conversion %#4.3Lg *)
  fmt_Lf : Q -> list ascii       (* the conversion %.4Lf *)
}.

(** What one call of [pv__format] observes of its environment: whether
    [malloc] succeeds, the value of [time(NULL)], and for a time and a
    [strftime] format the text that [localtime] and [strftime] give, [None]
    when [localtime] returns NULL. *)
Record env := {
  malloc_ok : bool;
  time_now : Z;
  local_strftime : Z -> list ascii -> option (list ascii)
}.

(** ** The state *)

Inductive strbuf :=
  | str_name | str_transferred | str_bufpercent | str_timer | str_rate
  | str_average_rate | str_progress | str_lastoutput | str_eta | str_fineta.

#[global] Instance strbuf_eq_dec : EqDecision strbuf.
Proof. solve_decision. Defined.

(** The [string] member of a format segment. *)
Inductive cptr :=
  | NULL
  | InBuf (b : strbuf)
  | InFormat (pos : nat).

Record segment := { seg_string : cptr; seg_length : Z }.

Record history_entry := { hist_elapsed_sec : Q; hist_total_bytes : Z }.

(** Options and transfer position, which the display code only reads. *)
Record pvopts := {
  numeric : bool;
  linemode : bool;
  bits : bool;
  size : Z;
  width : Z;
  name : option (list ascii);
  default_format : list ascii;
  format_string : option (list ascii);
  initial_offset : Z;
  buffer_size : Z;
  read_position : Z;
  write_position : Z;
  splice_used : bool;
  lastoutput_buffer : list ascii
}.

(** Rate smoothing, the oscillating percentage and the history window. *)
Record pvstats := {
  percentage : Z;
  prev_elapsed_sec : Q;
  prev_rate : Q;
  prev_trans : Q;
  current_avg_rate : Q;
  history : option (list history_entry);
  history_len : Z;
  history_interval : Z;
  history_first : Z;
  history_last : Z
}.

(** The compiled format. *)
Record pvlayout := {
  format : list segment;
  components_used : Z;
  lastoutput_length : Z
}.

(** The output buffer and what is remembered of the previous line. *)
Record pvout := {
  display_buffer : option (list ascii);
  display_buffer_size : Z;
  prev_width : Z;
  prev_length : Z
}.

Record pvstate := {
  opts : pvopts;
  exit_status : Z;
  stats : pvstats;
  layout : pvlayout;
  out : pvout;
  strs : strbuf -> list ascii
}.

Definition set_exit_status (v : Z) (st : pvstate) : pvstate :=
  {| opts := opts st; exit_status := v; stats := stats st;
     layout := layout st; out := out st; strs := strs st |}.
Definition set_stats (v : pvstats) (st : pvstate) : pvstate :=
  {| opts := opts st; exit_status := exit_status st; stats := v;
     layout := layout st; out := out st; strs := strs st |}.
Definition set_layout (v : pvlayout) (st : pvstate) : pvstate :=
  {| opts := opts st; exit_status := exit_status st; stats := stats st;
     layout := v; out := out st; strs := strs st |}.
Definition set_out (v : pvout) (st : pvstate) : pvstate :=
  {| opts := opts st; exit_status := exit_status st; stats := stats st;
     layout := layout st; out := v; strs := strs st |}.
Definition set_strs (v : strbuf -> list ascii) (st : pvstate) : pvstate :=
  {| opts := opts st; exit_status := exit_status st; stats := stats st;
     layout := layout st; out := out st; strs := v |}.

(** [state->format_string ? state->format_string : state->default_format] *)
Definition formatstr (o : pvopts) : list ascii :=
  default (default_format o) (format_string o).

(** The characters a segment pointer points at. *)
Definition deref (st : pvstate) (p : cptr) : list ascii :=
  match p with
  | NULL => []
  | InBuf b => strs st b
  | InFormat pos => drop pos (formatstr (opts st))
  end.

(** ** Calculators *)

Definition pv__calc_percentage (so_far total : Z) : Z :=
  if total <? 1 then 0
  else
    let so_far := so_far * 100 in
    let so_far := c_div so_far total in
    so_far.

Definition pv__calc_eta (so_far total rate : Z) : Z :=
  if (so_far <? 1) || (0 =? rate) then 0
  else
    let amount_left := c_div (total - so_far) rate in
    amount_left.

Definition bound_long (x min max : Z) : Z :=
  if x <? min then min else if x >? max then max else x.

Section Display.

Context `{PvInternal} `{Libc}.

(** [pv__sizestr]; [format] is the text around the single %s of the
    source's format argument. *)
Definition pv__sizestr (bufsize : Z) (format : list ascii -> list ascii)
    (amount : Q) (suffix_basic suffix_bytes : list ascii) (is_bytes : bool)
    : list ascii :=
  let suffix := if is_bytes then suffix_bytes else suffix_basic in
  let divider : Q := (if is_bytes then 1024 else 1000)%Q in
  let '(display_amount, si_prefix) := pv__si_prefix amount divider is_bytes in
  let display_amount : Q :=
    (if ld_lt 100000 display_amount then 100000 else display_amount)%Q in
  let sizestr_buffer :=
    if ld_lt 99.9%Q display_amount then
      pv_snprintf 256
        (fmt_ld_w 4 (ld_to_long display_amount)
           ++ fmt_s_prec 2 si_prefix ++ fmt_s_prec 16 suffix)
    else
      let str_disp := pv_snprintf 64 (fmt_Lg display_amount) in
      pv_snprintf 256
        (str_disp ++ fmt_s_prec 2 si_prefix ++ fmt_s_prec 16 suffix) in
  pv_snprintf bufsize (format sizestr_buffer).

(** ** The format compiler *)

(** The digits after a percent sign: [rest] is the format string from
    [strpos] on, [num] is an [unsigned int]. *)
Fixpoint scan_digits (rest : list ascii) (num : Z) (strpos : nat) : Z * nat :=
  match rest with
  | c :: rest' =>
      if isdigit c then
        let num := u32 (num * 10) in
        let num := u32 (num + (Z.of_nat (nat_of_ascii c) - 48)) in
        scan_digits rest' num (S strpos)
      else (num, strpos)
  | [] => (num, strpos)
  end.

(** The cases of the switch on the character after the digits. *)
Inductive directive :=
  | Dir_p | Dir_t | Dir_e | Dir_I | Dir_A | Dir_r | Dir_a | Dir_b | Dir_T
  | Dir_N | Dir_percent | Dir_end | Dir_default.

Definition directive_of (c : ascii) : directive :=
  if chr_eqb c "p" then Dir_p
  else if chr_eqb c "t" then Dir_t
  else if chr_eqb c "e" then Dir_e
  else if chr_eqb c "I" then Dir_I
  else if chr_eqb c "A" then Dir_A
  else if chr_eqb c "r" then Dir_r
  else if chr_eqb c "a" then Dir_a
  else if chr_eqb c "b" then Dir_b
  else if chr_eqb c "T" then Dir_T
  else if chr_eqb c "N" then Dir_N
  else if chr_eqb c "%" then Dir_percent
  else if chr_eqb c NUL then Dir_end
  else Dir_default.

Definition use_component (flag : Z) (l : pvlayout) : pvlayout :=
  {| format := format l;
     components_used := Z.lor (components_used l) flag;
     lastoutput_length := lastoutput_length l |}.

Definition field (b : strbuf) (len : Z) : segment :=
  {| seg_string := InBuf b; seg_length := len |}.

(** One percent directive.  [strpos] is the position of the percent sign;
    the result is the segment, the value of [strpos] when the switch is
    left, and the layout with its mask and preview length updated. *)
Definition compile_directive (fs : list ascii) (name_len : Z)
    (strpos : nat) (l : pvlayout) : segment * nat * pvlayout :=
  let strpos := S strpos in
  let '(num, strpos) := scan_digits (drop strpos fs) 0 strpos in
  match directive_of (char_at fs strpos) with
  | Dir_p => (field str_progress (-1), strpos, use_component PV_DISPLAY_PROGRESS l)
  | Dir_t => (field str_timer 0, strpos, use_component PV_DISPLAY_TIMER l)
  | Dir_e => (field str_eta 0, strpos, use_component PV_DISPLAY_ETA l)
  | Dir_I => (field str_fineta 0, strpos, use_component PV_DISPLAY_FINETA l)
  | Dir_A =>
      let num := if num >? PV_SIZEOF_LASTOUTPUT_BUFFER
                 then PV_SIZEOF_LASTOUTPUT_BUFFER else num in
      let num := if num <? 1 then 1 else num in
      (field str_lastoutput 0, strpos,
       use_component PV_DISPLAY_OUTPUTBUF
         {| format := format l; components_used := components_used l;
            lastoutput_length := num |})
  | Dir_r => (field str_rate 0, strpos, use_component PV_DISPLAY_RATE l)
  | Dir_a => (field str_average_rate 0, strpos, use_component PV_DISPLAY_AVERAGERATE l)
  | Dir_b => (field str_transferred 0, strpos, use_component PV_DISPLAY_BYTES l)
  | Dir_T => (field str_bufpercent 0, strpos, use_component PV_DISPLAY_BUFPERCENT l)
  | Dir_N => (field str_name name_len, strpos, use_component PV_DISPLAY_NAME l)
  | Dir_percent =>
      ({| seg_string := InFormat strpos; seg_length := 1 |}, strpos, l)
  | Dir_end =>
      let strpos := Nat.pred strpos in
      ({| seg_string := InFormat strpos; seg_length := 1 |}, strpos, l)
  | Dir_default =>
      let strpos := Nat.pred strpos in
      ({| seg_string := InFormat strpos; seg_length := 2 |}, S strpos, l)
  end.

(** Text outside directives: up to the next percent sign or the end. *)
Definition compile_literal (fs : list ascii) (strpos : nat) : segment * nat :=
  let rest := drop strpos fs in
  let foundlength :=
    match strchr rest "%" with
    | None => strlen rest
    | Some k => k
    end in
  ({| seg_string := InFormat strpos; seg_length := Z.of_nat foundlength |},
   (strpos + foundlength - 1)%nat).

(** The loop of [pv__format_init].  [room] is [99 - segment]: the loop
    stops when it is used up or when [formatstr[strpos]] is the terminator. *)
Fixpoint compile_loop (fs : list ascii) (name_len : Z) (room : nat)
    (strpos : nat) (l : pvlayout) : list segment * pvlayout :=
  match room with
  | O => ([], l)
  | S room' =>
      let c := char_at fs strpos in
      if chr_eqb c NUL then ([], l)
      else
        let '(seg, strpos, l) :=
          if chr_eqb "%" c then compile_directive fs name_len strpos l
          else let '(seg, strpos) := compile_literal fs strpos in (seg, strpos, l) in
        let '(segs, l) := compile_loop fs name_len room' (S strpos) l in
        (seg :: segs, l)
  end.

Definition terminator : segment := {| seg_string := NULL; seg_length := 0 |}.

(** [pv__format_init]: the scratch buffers it clears, the name label, and
    the compiled segments followed by the terminating entry. *)
Definition pv__format_init (st : pvstate) : pvstate :=
  let o := opts st in
  let str_name_text :=
    match name o with
    | Some n =>
        pv_snprintf PV_SIZEOF_STR_NAME
          (pad_left 9 " " (fmt_s_prec 500 n) ++ lit ":")
    | None => []
    end in
  let s := strs st in
  let s := <[str_name := str_name_text]> s in
  let s := <[str_transferred := []]> s in
  let s := <[str_timer := []]> s in
  let s := <[str_rate := []]> s in
  let s := <[str_average_rate := []]> s in
  let s := <[str_progress := []]> s in
  let s := <[str_eta := []]> s in
  let l0 := {| format := []; components_used := 0;
               lastoutput_length := lastoutput_length (layout st) |} in
  let '(segs, l) :=
    compile_loop (formatstr o) (Z.of_nat (strlen str_name_text)) 99 0 l0 in
  set_layout
    {| format := segs ++ [terminator];
       components_used := components_used l;
       lastoutput_length := lastoutput_length l |}
    (set_strs s st).

(** ** The average-rate window *)

(** [state->history[i]]; an index outside the array is undefined in C and
    reads a zero entry here. *)
Definition history_at (h : list history_entry) (i : Z) : history_entry :=
  default {| hist_elapsed_sec := 0; hist_total_bytes := 0 |} (h !! Z.to_nat i).

Definition update_history_avg_rate (s : pvstats)
    (total_bytes : Z) (elapsed_sec rate : Q) : pvstats :=
  let first := history_first s in
  let last := history_last s in
  match history s with
  | None => s
  | Some h =>
      let last_elapsed := hist_elapsed_sec (history_at h last) in
      if ld_lt 0 last_elapsed
         && ld_lt elapsed_sec (last_elapsed + inject_Z (history_interval s))%Q
      then s
      else
        let '(first, last) :=
          if ld_lt 0 last_elapsed then
            let len := history_len s in
            let last := c_mod (last + 1) len in
            let first := if last =? first then c_mod (first + 1) len else first in
            (first, last)
          else (first, last) in
        let h :=
          <[Z.to_nat last := {| hist_elapsed_sec := elapsed_sec;
                                hist_total_bytes := total_bytes |}]> h in
        let avg :=
          if first =? last then rate
          else
            let bytes := hist_total_bytes (history_at h last)
                         - hist_total_bytes (history_at h first) in
            let sec := (hist_elapsed_sec (history_at h last)
                        - hist_elapsed_sec (history_at h first))%Q in
            (inject_Z bytes / sec)%Q in
        {| percentage := percentage s;
           prev_elapsed_sec := prev_elapsed_sec s;
           prev_rate := prev_rate s;
           prev_trans := prev_trans s;
           current_avg_rate := avg;
           history := Some h;
           history_len := history_len s;
           history_interval := history_interval s;
           history_first := first;
           history_last := last |}
  end.

(** ** The renderer, block by block *)

(** Rate smoothing: the rate of this call and the carry kept for the next. *)
Definition smooth_rate (s : pvstats) (elapsed_sec : Q) (bytes_since_last : Z)
    : pvstats * Q :=
  let time_since_last := (elapsed_sec - prev_elapsed_sec s)%Q in
  let '(rate, elapsed', trans') :=
    if ld_le time_since_last 0.01%Q then
      (prev_rate s, prev_elapsed_sec s,
       (prev_trans s + inject_Z bytes_since_last)%Q)
    else
      (((inject_Z bytes_since_last + prev_trans s) / time_since_last)%Q,
       elapsed_sec, 0%Q) in
  ({| percentage := percentage s;
      prev_elapsed_sec := elapsed';
      prev_rate := rate;
      prev_trans := trans';
      current_avg_rate := current_avg_rate s;
      history := history s;
      history_len := history_len s;
      history_interval := history_interval s;
      history_first := history_first s;
      history_last := history_last s |}, rate).

(** The final update: [elapsed_sec], [rate] and [average_rate] as the rest
    of the call sees them. *)
Definition final_rates (o : pvopts) (elapsed_sec : Q)
    (bytes_since_last total_bytes : Z) (rate average_rate : Q) : Q * Q * Q :=
  if bytes_since_last <? 0 then
    let elapsed_sec :=
      (if ld_lt elapsed_sec 0.000001 then 0.000001 else elapsed_sec)%Q in
    let average_rate :=
      ((inject_Z total_bytes - inject_Z (initial_offset o)) / elapsed_sec)%Q in
    (elapsed_sec, average_rate, average_rate)
  else (elapsed_sec, rate, average_rate).

Definition set_percentage (p : Z) (s : pvstats) : pvstats :=
  {| percentage := p;
     prev_elapsed_sec := prev_elapsed_sec s;
     prev_rate := prev_rate s;
     prev_trans := prev_trans s;
     current_avg_rate := current_avg_rate s;
     history := history s;
     history_len := history_len s;
     history_interval := history_interval s;
     history_first := history_first s;
     history_last := history_last s |}.

Definition uses (l : pvlayout) (flag : Z) : bool :=
  negb (Z.land (components_used l) flag =? 0).

(** The percentage: the saved counter when the size is unknown, the real
    percentage when it is known and shown. *)
Definition update_percentage (o : pvopts) (l : pvlayout) (s : pvstats)
    (rate : Q) (total_bytes : Z) : pvstats :=
  if size o <=? 0 then
    let p := percentage s in
    let p := if ld_lt 0 rate then p + 2 else p in
    let p := if p >? 199 then 0 else p in
    set_percentage p s
  else if numeric o || uses l PV_DISPLAY_PROGRESS then
    set_percentage (pv__calc_percentage total_bytes (size o)) s
  else s.

(** The output buffer: dropped when the width has outgrown it, allocated
    when there is none.  The flag tells whether a buffer is there. *)
Definition ensure_buffer (e : env) (o : pvopts) (b : pvout) : pvout * bool :=
  let b :=
    match display_buffer b with
    | Some _ =>
        if display_buffer_size b <? u32 (width o * 2) then
          {| display_buffer := None; display_buffer_size := 0;
             prev_width := prev_width b; prev_length := prev_length b |}
        else b
    | None => b
    end in
  match display_buffer b with
  | Some _ => (b, true)
  | None =>
      let sz := u32 (u32 (2 * width o) + 80) in
      let sz :=
        match name o with
        | Some n => sz + Z.of_nat (strlen n)
        | None => sz
        end in
      ({| display_buffer := if malloc_ok e then Some [] else None;
          display_buffer_size := sz;
          prev_width := prev_width b; prev_length := prev_length b |},
       malloc_ok e)
  end.

(** Numeric mode: the text printed into the output buffer. *)
Definition numeric_line (o : pvopts) (l : pvlayout) (s : pvstats) (b : pvout)
    (elapsed_sec : Q) (total_bytes : Z) : list ascii :=
  let numericprefix :=
    if uses l PV_DISPLAY_TIMER
    then pv_snprintf 128 (fmt_Lf elapsed_sec ++ lit " ")
    else [] in
  let newline := [ascii_of_nat 10] in
  if uses l PV_DISPLAY_BYTES then
    if bits o then
      pv_snprintf (display_buffer_size b)
        (fmt_s_prec 99 numericprefix ++ fmt_ld (8 * total_bytes) ++ newline)
    else
      pv_snprintf (display_buffer_size b)
        (fmt_s_prec 99 numericprefix ++ fmt_ld total_bytes ++ newline)
  else
    pv_snprintf (display_buffer_size b)
      (fmt_s_prec 99 numericprefix ++ fmt_ld (percentage s) ++ newline).

(** *** Fixed-width fields *)

Definition render_transferred (o : pvopts) (total_bytes : Z) : list ascii :=
  if bits o && negb (linemode o) then
    pv__sizestr PV_SIZEOF_STR_TRANSFERRED (fun x => x)
      (inject_Z total_bytes * 8)%Q [] (lit "b") true
  else
    pv__sizestr PV_SIZEOF_STR_TRANSFERRED (fun x => x)
      (inject_Z total_bytes) [] (lit "B") (negb (linemode o)).

Definition render_bufpercent (o : pvopts) (old : list ascii) : list ascii :=
  let s :=
    if buffer_size o >? 0 then
      pv_snprintf PV_SIZEOF_STR_BUFPERCENT
        (lit "{"
           ++ fmt_ld_w 3
                (pv__calc_percentage (read_position o - write_position o)
                   (buffer_size o))
           ++ lit "%}")
    else old in
  if HAVE_SPLICE && splice_used o then
    pv_snprintf PV_SIZEOF_STR_BUFPERCENT (lit "{----}")
  else s.

(** A count of seconds as [h:mm:ss], with a day count in front above a day. *)
Definition clock_text (t : Z) (days : bool) : list ascii :=
  if days then
    fmt_ld (c_div t 86400) ++ lit ":"
      ++ fmt_02ld (c_mod (c_div t 3600) 24) ++ lit ":"
      ++ fmt_02ld (c_mod (c_div t 60) 60) ++ lit ":"
      ++ fmt_02ld (c_mod t 60)
  else
    fmt_ld (c_div t 3600) ++ lit ":"
      ++ fmt_02ld (c_mod (c_div t 60) 60) ++ lit ":"
      ++ fmt_02ld (c_mod t 60).

Definition render_timer (elapsed_sec : Q) : list ascii :=
  let elapsed_sec :=
    (if ld_lt 360000000 elapsed_sec then 360000000 else elapsed_sec)%Q in
  pv_snprintf PV_SIZEOF_STR_TIMER
    (clock_text (ld_to_long elapsed_sec) (ld_lt 86400%Q elapsed_sec)).

Definition render_rate (o : pvopts) (bufsize : Z) (rate : Q) : list ascii :=
  let brackets := fun x => lit "[" ++ x ++ lit "]" in
  if bits o && negb (linemode o) then
    pv__sizestr bufsize brackets (8 * rate)%Q [] (lit "b/s") true
  else
    pv__sizestr bufsize brackets rate (lit "/s") (lit "B/s")
      (negb (linemode o)).

Definition render_lastoutput (o : pvopts) (l : pvlayout) : list ascii :=
  (fun idx =>
     let c := char_at (lastoutput_buffer o) idx in
     if isprint c then c else "."%char)
    <$> seq 0 (Z.to_nat (lastoutput_length l)).

(** The loop that blanks a field: every character before the terminator,
    and before the end of the buffer, becomes a space. *)
Fixpoint blank_out (bufsize : nat) (s : list ascii) : list ascii :=
  match bufsize, s with
  | S n, c :: s' => if chr_eqb c NUL then s else " "%char :: blank_out n s'
  | _, _ => s
  end.

(** The ETA in seconds that both ETA fields show. *)
Definition eta_seconds (o : pvopts) (s : pvstats) (total_bytes : Z) : Z :=
  let eta :=
    pv__calc_eta (total_bytes - initial_offset o)
      (size o - initial_offset o) (ld_to_long (current_avg_rate s)) in
  bound_long eta 0 360000000.

(** The countdown as it is printed before a final update blanks it. *)
Definition eta_text (eta : Z) : list ascii :=
  pv_snprintf PV_SIZEOF_STR_ETA
    (fmt_s_prec 16 (lit "ETA") ++ lit " " ++ clock_text eta (eta >? 86400)).

Definition render_eta (o : pvopts) (s : pvstats)
    (bytes_since_last total_bytes : Z) : list ascii :=
  let eta := eta_seconds o s total_bytes in
  let str_eta := eta_text eta in
  if bytes_since_last <? 0
  then blank_out (Z.to_nat PV_SIZEOF_STR_ETA) str_eta
  else str_eta.

Definition render_fineta (e : env) (o : pvopts) (s : pvstats)
    (total_bytes : Z) (old : list ascii) : list ascii :=
  let now := time_now e in
  let eta := eta_seconds o s total_bytes in
  let time_format :=
    if eta >? 6 * 3600 then lit "%Y-%m-%d %H:%M:%S" else lit "%H:%M:%S" in
  let then_ := now + eta in
  match local_strftime e then_ time_format with
  | None => blank_out (Z.to_nat PV_SIZEOF_STR_FINETA) old
  | Some text =>
      let head :=
        pv_snprintf PV_SIZEOF_STR_FINETA (fmt_s_prec 16 (lit "ETA") ++ lit " ") in
      head ++ pv_snprintf (PV_SIZEOF_STR_FINETA - 1 - Z.of_nat (strlen head)) text
  end.

(** All the fixed-width scratch buffers, in the order of the source. *)
Definition render_fields (e : env) (st : pvstate)
    (elapsed_sec rate average_rate : Q) (bytes_since_last total_bytes : Z)
    : strbuf -> list ascii :=
  let o := opts st in
  let l := layout st in
  let s := strs st in
  let s := <[str_transferred := []]> s in
  let s := <[str_bufpercent := []]> s in
  let s := <[str_timer := []]> s in
  let s := <[str_rate := []]> s in
  let s := <[str_average_rate := []]> s in
  let s := <[str_progress := []]> s in
  let s := <[str_lastoutput := []]> s in
  let s := <[str_eta := []]> s in
  let s := <[str_fineta := []]> s in
  let s := if uses l PV_DISPLAY_BYTES
           then <[str_transferred := render_transferred o total_bytes]> s else s in
  let s := if uses l PV_DISPLAY_BUFPERCENT
           then <[str_bufpercent := render_bufpercent o (s str_bufpercent)]> s else s in
  let s := if uses l PV_DISPLAY_TIMER
           then <[str_timer := render_timer elapsed_sec]> s else s in
  let s := if uses l PV_DISPLAY_RATE
           then <[str_rate := render_rate o PV_SIZEOF_STR_RATE rate]> s else s in
  let s := if uses l PV_DISPLAY_AVERAGERATE
           then <[str_average_rate :=
                    render_rate o PV_SIZEOF_STR_AVERAGE_RATE average_rate]> s
           else s in
  let s := if uses l PV_DISPLAY_OUTPUTBUF
           then <[str_lastoutput := render_lastoutput o l]> s else s in
  let s := if uses l PV_DISPLAY_ETA && (size o >? 0)
           then <[str_eta := render_eta o (stats st) bytes_since_last total_bytes]> s
           else s in
  let s := if uses l PV_DISPLAY_FINETA && (size o >? 0)
           then <[str_fineta :=
                    render_fineta e o (stats st) total_bytes (s str_fineta)]> s
           else s in
  s.

(** *** The progress bar *)

(** The width of everything but the progress bar: the loop over the format
    up to its terminating entry. *)
Fixpoint static_portion (st : pvstate) (segs : list segment)
    (static_portion_size : Z) : Z :=
  match segs with
  | [] => static_portion_size
  | seg :: rest =>
      match seg_string seg with
      | NULL => static_portion_size
      | p =>
          if seg_length seg <? 0 then static_portion st rest static_portion_size
          else if seg_length seg >? 0 then
            static_portion st rest (static_portion_size + seg_length seg)
          else
            static_portion st rest
              (static_portion_size + Z.of_nat (strlen (deref st p)))
      end
  end.

(** [for (; i < bound; i++) body]: the accumulated result and the final [i],
    for a body that changes neither [i] nor [bound]. *)
Fixpoint for_count {A : Type} (n : nat) (i : Z) (body : Z -> A -> A) (a : A)
    : A * Z :=
  match n with
  | O => (a, i)
  | S n' => for_count n' (i + 1) body (body i a)
  end.

Definition for_upto {A : Type} (i bound : Z) (body : Z -> A -> A) (a : A)
    : A * Z :=
  for_count (Z.to_nat (bound - i)) i body a.

Definition clamp_width (available_width : Z) : Z :=
  let available_width := if available_width <? 0 then 0 else available_width in
  if available_width >? to_int PV_SIZEOF_STR_PROGRESS - 16
  then PV_SIZEOF_STR_PROGRESS - 16
  else available_width.

Definition cat (src : string) (dst : list ascii) : list ascii :=
  pv_strlcat dst (lit src) PV_SIZEOF_STR_PROGRESS.

(** The bar for a known size, between the opening bracket and the
    percentage, for the clamped width and percentage. *)
Definition bar_known (available_width percentage : Z) (pct : list ascii)
    : list ascii :=
  let s := lit "[" in
  let '(s, i) :=
    for_upto 0 (c_div (available_width * percentage) 100 - 1)
      (fun i s => if i <? available_width then cat "=" s else s) s in
  let '(s, i) :=
    if i <? available_width then (cat ">" s, i + 1) else (s, i) in
  let '(s, i) := for_upto i available_width (fun _ s => cat " " s) s in
  let s := cat "] " s in
  pv_strlcat s pct PV_SIZEOF_STR_PROGRESS.

(** The bar for an unknown size: a marker that moves with the saved counter. *)
Definition bar_unknown (available_width percentage : Z) : list ascii :=
  let s := lit "[" in
  let p := to_int percentage in
  let p := if p >? 100 then 200 - p else p in
  let '(s, i) :=
    for_upto 0 (c_div (available_width * p) 100)
      (fun i s => if i <? available_width then cat " " s else s) s in
  let s := cat "<=>" s in
  let '(s, i) := for_upto i available_width (fun _ s => cat " " s) s in
  cat "]" s.

(** The whole progress block: the bar in [str_progress], and the percentage,
    which the block clamps when the size is known. *)
Definition render_progress (o : pvopts) (s : pvstats) (static_portion_size : Z)
    : list ascii * pvstats :=
  let '(bar, s) :=
    if size o >? 0 then
      let p := percentage s in
      let p := if p <? 0 then 0 else p in
      let p := if p >? 100000 then 100000 else p in
      let pct := pv_snprintf 16 (fmt_ld_w 2 p ++ lit "%") in
      let available_width :=
        clamp_width
          (to_int (u32 (width o - static_portion_size)
                   - Z.of_nat (strlen pct) - 3)) in
      (bar_known available_width p pct, set_percentage p s)
    else
      let available_width :=
        clamp_width (to_int (u32 (width o - static_portion_size - 5))) in
      (bar_unknown available_width (percentage s), s) in
  if Z.of_nat (strlen bar) + static_portion_size >? width o
  then ([], s)
  else (bar, s).

(** *** Line assembly *)

(** The loop that sticks the segments together: the buffer and the length
    counted so far. *)
Fixpoint assemble (st : pvstate) (segs : list segment)
    (buf : list ascii) (display_string_length : Z) : list ascii * Z :=
  match segs with
  | [] => (buf, display_string_length)
  | seg :: rest =>
      match seg_string seg with
      | NULL => (buf, display_string_length)
      | p =>
          let segment_length :=
            if seg_length seg >? 0 then seg_length seg
            else Z.of_nat (strlen (deref st p)) in
          if segment_length =? 0 then assemble st rest buf display_string_length
          else
            let segment_length :=
              if segment_length + display_string_length
                 >? display_buffer_size (out st) - 2
              then display_buffer_size (out st) - display_string_length - 2
              else segment_length in
            if segment_length <? 1 then (buf, display_string_length)
            else if segment_length + display_string_length
                    >? to_int (width (opts st))
            then (buf, display_string_length)
            else
              assemble st rest (strncat buf (deref st p) segment_length)
                (display_string_length + segment_length)
      end
  end.

(** The trailing spaces that cover what a longer previous line left behind:
    the padded buffer and the length remembered for the next call. *)
Definition stabilise (o : pvopts) (b : pvout) (buf : list ascii)
    : list ascii * Z :=
  let output_length := Z.of_nat (strlen buf) in
  if (output_length <? prev_length b) && (to_int (width o) >=? prev_width b)
  then
    let spaces_to_add := prev_length b - output_length in
    let spaces_to_add := if spaces_to_add >? 15 then 15 else spaces_to_add in
    let output_length := output_length + spaces_to_add in
    (pv_strlcat buf (spaces (Z.to_nat spaces_to_add)) (display_buffer_size b),
     output_length)
  else (buf, output_length).

(** *** pv__format *)

(** The statistics of one call: the smoothed rate, the history window, the
    whole-run rates of a final update, and the percentage.  The result is
    the new statistics with [elapsed_sec], [rate] and [average_rate] as the
    field renderers receive them. *)
Definition measure (o : pvopts) (l : pvlayout) (s : pvstats)
    (elapsed_sec : Q) (bytes_since_last total_bytes : Z)
    : pvstats * (Q * Q * Q) :=
  let '(s, rate) := smooth_rate s elapsed_sec bytes_since_last in
  let s := update_history_avg_rate s total_bytes elapsed_sec rate in
  let average_rate := current_avg_rate s in
  let '(elapsed_sec, rate, average_rate) :=
    final_rates o elapsed_sec bytes_since_last total_bytes rate average_rate in
  let s := update_percentage o l s rate total_bytes in
  (s, (elapsed_sec, rate, average_rate)).

Definition set_display_buffer (v : option (list ascii)) (b : pvout) : pvout :=
  {| display_buffer := v; display_buffer_size := display_buffer_size b;
     prev_width := prev_width b; prev_length := prev_length b |}.

(** The line of a call that is not in numeric mode, once the statistics are
    up to date and the buffer is there. *)
Definition format_line (e : env) (st : pvstate)
    (elapsed_sec rate average_rate : Q) (bytes_since_last total_bytes : Z)
    : pvstate * list ascii :=
  let st :=
    set_strs
      (render_fields e st elapsed_sec rate average_rate
         bytes_since_last total_bytes) st in
  let static_portion_size := static_portion st (format (layout st)) 0 in
  let st :=
    if uses (layout st) PV_DISPLAY_PROGRESS then
      let '(bar, s) :=
        render_progress (opts st) (stats st) static_portion_size in
      set_stats s (set_strs (<[str_progress := bar]> (strs st)) st)
    else st in
  let '(buf, _) := assemble st (format (layout st)) [] 0 in
  let '(buf, output_length) := stabilise (opts st) (out st) buf in
  (set_out
     {| display_buffer := Some buf;
        display_buffer_size := display_buffer_size (out st);
        prev_width := to_int (width (opts st));
        prev_length := output_length |} st,
   buf).

(** [pv__format(state, elapsed_sec, bytes_since_last, total_bytes)] for a
    state that exists: the state it leaves and the string it returns, [None]
    for NULL. *)
Definition pv__format (e : env) (st : pvstate)
    (elapsed_sec : Q) (bytes_since_last total_bytes : Z)
    : pvstate * option (list ascii) :=
  if total_bytes <? 0 then
    (set_out (set_display_buffer None (out st)) st, None)
  else
    let '(s, (elapsed_sec, rate, average_rate)) :=
      measure (opts st) (layout st) (stats st)
        elapsed_sec bytes_since_last total_bytes in
    let st := set_stats s st in
    let '(b, ok) := ensure_buffer e (opts st) (out st) in
    let st := set_out b st in
    if negb ok then
      (set_exit_status (Z.lor (exit_status st) 64) st, None)
    else if numeric (opts st) then
      let line :=
        numeric_line (opts st) (layout st) (stats st) (out st)
          elapsed_sec total_bytes in
      (set_out (set_display_buffer (Some line) (out st)) st, Some line)
    else
      let '(st, line) :=
        format_line e st elapsed_sec rate average_rate
          bytes_since_last total_bytes in
      (st, Some line).

End Display.

(** ** An instance to run the model on

    Values for the constants (distinct single bits for the mask, a kilobyte
    for the progress bar) and stand-ins for the two floating conversions. *)
Module Sample.

#[export] Instance sample_internal : PvInternal := {|
  PV_SIZEOF_STR_NAME := 512;
  PV_SIZEOF_STR_TRANSFERRED := 128;
  PV_SIZEOF_STR_BUFPERCENT := 128;
  PV_SIZEOF_STR_TIMER := 128;
  PV_SIZEOF_STR_RATE := 128;
  PV_SIZEOF_STR_AVERAGE_RATE := 128;
  PV_SIZEOF_STR_PROGRESS := 1024;
  PV_SIZEOF_STR_ETA := 128;
  PV_SIZEOF_STR_FINETA := 128;
  PV_SIZEOF_LASTOUTPUT_BUFFER := 256;
  PV_FORMAT_ARRAY_MAX := 100;
  PV_DISPLAY_PROGRESS := 1;
  PV_DISPLAY_TIMER := 2;
  PV_DISPLAY_ETA := 4;
  PV_DISPLAY_RATE := 8;
  PV_DISPLAY_AVERAGERATE := 16;
  PV_DISPLAY_BYTES := 32;
  PV_DISPLAY_NAME := 64;
  PV_DISPLAY_BUFPERCENT := 128;
  PV_DISPLAY_OUTPUTBUF := 256;
  PV_DISPLAY_FINETA := 512;
  HAVE_SPLICE := false
|}.

(** The integer part only: enough to run examples that do not depend on
    the digits after the point. *)
#[export] Instance sample_libc : Libc := {|
  fmt_Lg := fun x => fmt_ld (ld_to_long x);
  fmt_Lf := fun x => fmt_ld (ld_to_long x)
|}.

Definition sample_env : env :=
  {| malloc_ok := true; time_now := 0; local_strftime := fun _ _ => None |}.

Definition sample_opts (fmt : string) (sz w : Z) : pvopts :=
  {| numeric := false; linemode := false; bits := false;
     size := sz; width := w; name := None;
     default_format := lit fmt; format_string := None;
     initial_offset := 0; buffer_size := 0;
     read_position := 0; write_position := 0;
     splice_used := false; lastoutput_buffer := [] |}.

Definition sample_stats : pvstats :=
  {| percentage := 0; prev_elapsed_sec := 0; prev_rate := 0; prev_trans := 0;
     current_avg_rate := 0;
     history := Some (replicate 4 {| hist_elapsed_sec := 0; hist_total_bytes := 0 |});
     history_len := 4; history_interval := 1;
     history_first := 0; history_last := 0 |}.

(** A freshly allocated state with its format compiled. *)
Definition sample_state_with (o : pvopts) : pvstate :=
  pv__format_init
    {| opts := o; exit_status := 0; stats := sample_stats;
       layout := {| format := []; components_used := 0; lastoutput_length := 0 |};
       out := {| display_buffer := None; display_buffer_size := 0;
                 prev_width := 0; prev_length := 0 |};
       strs := fun _ => [] |}.

Definition sample_state (fmt : string) (sz w : Z) : pvstate :=
  sample_state_with (sample_opts fmt sz w).

Definition shown (r : pvstate * option (list ascii)) : option string :=
  string_of_list_ascii <$> r.2.

End Sample.

(** ** Vocabulary of the properties *)

(** [qpow r n] is r to the n. *)
Fixpoint qpow (r : Q) (n : nat) : Q :=
  match n with
  | O => 1
  | S n' => r * qpow r n'
  end.





(** The samples the history window holds, oldest first: the entries from
    [history_first] round to [history_last]. *)
Definition window_count (s : pvstats) : Z :=
  (history_last s - history_first s) mod history_len s + 1.

Definition window_samples (s : pvstats) : list history_entry :=
  match history s with
  | None => []
  | Some h =>
      (fun k : nat =>
         history_at h ((history_first s + Z.of_nat k) mod history_len s))
        <$> seq 0 (Z.to_nat (window_count s))
  end.

(** The history is an array of [history_len] entries, and both indices are
    inside it. *)
Definition window_ok (s : pvstats) : Prop :=
  exists h,
    history s = Some h
    /\ Z.of_nat (length h) = history_len s
    /\ 0 <= history_first s < history_len s
    /\ 0 <= history_last s < history_len s.

(** Two statistics records with the same rate-smoothing carry. *)
Definition same_carry (s1 s2 : pvstats) : Prop :=
  prev_elapsed_sec s1 = prev_elapsed_sec s2
  /\ prev_rate s1 = prev_rate s2
  /\ prev_trans s1 = prev_trans s2.

(** The rate and the average rate that a call hands to the field
    renderers. *)
Definition shown_rates `{PvInternal} (st : pvstate)
    (elapsed_sec : Q) (bytes_since_last total_bytes : Z) : Q * Q :=
  let m := (measure (opts st) (layout st) (stats st)
              elapsed_sec bytes_since_last total_bytes).2 in
  (m.1.2, m.2).

(** A call of [pv__format] and a sequence of them. *)
Record call := {
  call_env : env;
  call_elapsed_sec : Q;
  call_bytes_since_last : Z;
  call_total_bytes : Z
}.

Definition render `{PvInternal} `{Libc} (st : pvstate) (c : call) : pvstate :=
  (pv__format (call_env c) st (call_elapsed_sec c)
     (call_bytes_since_last c) (call_total_bytes c)).1.

Definition run `{PvInternal} `{Libc} (st : pvstate) (calls : list call)
    : pvstate :=
  fold_left render calls st.

(** The rate that the percentage block of a call sees. *)
Definition call_rate `{PvInternal} (st : pvstate) (c : call) : Q :=
  (shown_rates st (call_elapsed_sec c)
     (call_bytes_since_last c) (call_total_bytes c)).1.

(** The rate is positive at every call of the sequence. *)
Fixpoint rates_positive `{PvInternal} `{Libc} (st : pvstate)
    (calls : list call) : Prop :=
  match calls with
  | [] => True
  | c :: cs => (0 < call_rate st c)%Q /\ rates_positive (render st c) cs
  end.

(** A call in the sample environment. *)
Definition tick (elapsed : Q) (bytes total : Z) : call :=
  {| call_env := Sample.sample_env; call_elapsed_sec := elapsed;
     call_bytes_since_last := bytes; call_total_bytes := total |}.

(** A string that holds no NUL: all of the list is C string content. *)
Definition no_nul (s : list ascii) : Prop := Forall (fun c => c <> NUL) s.


(** Line assembly in the words of the specification: whole segments in
    compiled order, empty ones passed over, and nothing more once a segment
    would overflow the capacity of the buffer or the terminal width.
    [text_of] gives the characters behind a pointer, [len] is the length
    assembled so far. *)
Fixpoint assemble_whole (text_of : cptr -> list ascii) (capacity width : Z)
    (segs : list segment) (len : Z) : list ascii :=
  match segs with
  | [] => []
  | seg :: rest =>
      match seg_string seg with
      | NULL => []
      | p =>
          let n := if seg_length seg >? 0 then seg_length seg
                   else Z.of_nat (strlen (text_of p)) in
          if n =? 0 then assemble_whole text_of capacity width rest len
          else if (n + len >? capacity - 2) || (n + len >? width) then []
          else
            take (Z.to_nat n) (take (strlen (text_of p)) (text_of p))
              ++ assemble_whole text_of capacity width rest (len + n)
      end
  end.

Definition whole_line (st : pvstate) : list ascii :=
  assemble_whole (deref st) (display_buffer_size (out st))
    (to_int (width (opts st))) (format (layout st)) 0.

(** A buffer, when there is one, has the size [pv__format] gave it for a
    width whose doubling did not wrap. *)
Definition buffer_ok (b : pvout) : Prop :=
  display_buffer b = None \/ 80 <= display_buffer_size b.

(** Modelled from the spec: [pv_state_width_set] is declared in pv.h and
    defined outside display.c; the owner of the state calls it when the
    terminal is resized, and it stores the new width. *)
Definition pv_state_width_set (st : pvstate) (w : Z) : pvstate :=
  let o := opts st in
  {| opts :=
       {| numeric := numeric o; linemode := linemode o; bits := bits o;
          size := size o; width := w; name := name o;
          default_format := default_format o;
          format_string := format_string o;
          initial_offset := initial_offset o; buffer_size := buffer_size o;
          read_position := read_position o;
          write_position := write_position o;
          splice_used := splice_used o;
          lastoutput_buffer := lastoutput_buffer o |};
     exit_status := exit_status st; stats := stats st; layout := layout st;
     out := out st; strs := strs st |}.

(** Consecutive samples of a window lie at least [d] apart in time. *)
Definition spaced (d : Q) (w : list history_entry) : Prop :=
  forall i a b,
    w !! i = Some a -> w !! S i = Some b ->
    (hist_elapsed_sec a + d <= hist_elapsed_sec b)%Q.

(** The bit of [components_used] that stands for the scratch buffer a
    segment points at; a literal segment stands for none. *)
Definition seg_flag `{PvInternal} (seg : segment) : Z :=
  match seg_string seg with
  | InBuf str_progress => PV_DISPLAY_PROGRESS
  | InBuf str_timer => PV_DISPLAY_TIMER
  | InBuf str_eta => PV_DISPLAY_ETA
  | InBuf str_fineta => PV_DISPLAY_FINETA
  | InBuf str_lastoutput => PV_DISPLAY_OUTPUTBUF
  | InBuf str_rate => PV_DISPLAY_RATE
  | InBuf str_average_rate => PV_DISPLAY_AVERAGERATE
  | InBuf str_transferred => PV_DISPLAY_BYTES
  | InBuf str_bufpercent => PV_DISPLAY_BUFPERCENT
  | InBuf str_name => PV_DISPLAY_NAME
  | _ => 0
  end.

(** * Properties *)

(** ** Comparisons of long double values *)

Lemma ld_lt_spec x y : ld_lt x y = true <-> (x < y)%Q.
Proof.
  unfold ld_lt. rewrite negb_true_iff. split.
  - intros Hb. apply Qnot_le_lt. intros Hle.
    apply Qle_bool_iff in Hle. congruence.
  - intros Hlt. destruct (Qle_bool y x) eqn:E; [|reflexivity].
    apply Qle_bool_iff in E. exfalso. exact (Qlt_not_le _ _ Hlt E).
Qed.

Lemma ld_lt_false x y : ld_lt x y = false <-> (y <= x)%Q.
Proof. unfold ld_lt. rewrite negb_false_iff. apply Qle_bool_iff. Qed.

(** ** The SI scaler (C5) *)

Lemma qpow_pos r n : (0 < r)%Q -> (0 < qpow r n)%Q.
Proof.
  intros Hr. induction n as [|n IH]; simpl; [reflexivity|].
  apply Qmult_lt_0_compat; assumption.
Qed.

(** What the first loop leaves: [k] divisions were made, each because the
    value was above the cutoff, and the loop stopped on a value that is not
    above the cutoff or on the end of the table. *)
Lemma si_up_spec (r c : Q) (above : list ascii) :
  (0 < r)%Q ->
  Forall (fun a => chr_eqb a NUL = false) above ->
  forall value i p0,
  exists k : nat,
    let '(v1, i1, p1) := si_up r c above value i p0 in
    (k <= length above)%nat
    /\ (v1 * qpow r k == value)%Q
    /\ ((1 <= k)%nat -> (c < v1 * r)%Q)
    /\ (((v1 <= c)%Q /\ i1 = (i + k)%nat)
        \/ ((c < v1)%Q /\ i1 = S (i + k) /\ k = length above))
    /\ p1 = match k with O => p0 | S k' => nth k' above NUL end.
Proof.
  intros Hr Hnul. induction Hnul as [|a above Ha Hnul IH]; intros value i p0.
  - exists O. simpl. destruct (ld_lt c value) eqn:E.
    + apply ld_lt_spec in E. repeat split; try lia.
      * simpl. lra.
      * right. repeat split; [assumption | lia].
    + apply ld_lt_false in E. repeat split; try lia.
      * simpl. lra.
      * left. split; [assumption | lia].
  - simpl. destruct (ld_lt c value) eqn:E.
    + rewrite Ha. apply ld_lt_spec in E.
      destruct (IH (value / r)%Q (S i) a) as [k Hk].
      exists (S k).
      destruct (si_up r c above (value / r) (S i) a) as [[v1 i1] p1].
      destruct Hk as (Hlen & Hval & Hprev & Hstop & Hp).
      assert (Hval' : (v1 * (r * qpow r k) == value)%Q).
      { transitivity ((v1 * qpow r k) * r)%Q; [ring|].
        rewrite Hval. field. lra. }
      repeat split.
      * simpl. lia.
      * exact Hval'.
      * intros _. destruct k as [|k].
        -- simpl in Hval'. 
           assert (v1 * r == value)%Q by (rewrite <- Hval'; ring).
           lra.
        -- apply Hprev. lia.
      * destruct Hstop as [[Hle ->] | (Hgt & -> & ->)].
        -- left. split; [assumption | lia].
        -- right. repeat split; [assumption | lia].
      * rewrite Hp. destruct k; reflexivity.
    + exists O. apply ld_lt_false in E. repeat split; try lia.
      * simpl. lra.
      * left. split; [assumption | lia].
Qed.

(** What the second loop leaves: [m] multiplications were made, each
    because the value was below 1, and the loop stopped on a value of at
    least 1 or on the bottom of the table. *)
Lemma si_down_spec (pfx : list ascii) (r : Q) :
  (0 < r)%Q ->
  forall (i : nat) value p0,
  exists m : nat,
    let '(v2, p2) := si_down pfx r value i p0 in
    (m <= i)%nat
    /\ (v2 == value * qpow r m)%Q
    /\ (forall j, (j < m)%nat -> (value * qpow r j < 1)%Q)
    /\ ((1 <= m)%nat -> (v2 < r)%Q)
    /\ ((1 <= v2)%Q \/ m = i)
    /\ p2 = match m with O => p0 | S _ => char_at pfx (i - m) end.
Proof.
  intros Hr.
  assert (Hstay : forall (i : nat) (value : Q) (p0 : ascii),
            ld_lt value 1 = false ->
            (0 <= i)%nat
            /\ (value == value * qpow r 0)%Q
            /\ (forall j, (j < 0)%nat -> (value * qpow r j < 1)%Q)
            /\ ((1 <= 0)%nat -> (value < r)%Q)
            /\ ((1 <= value)%Q \/ O = i)
            /\ p0 = p0).
  { intros i value p0 E. apply ld_lt_false in E.
    split; [lia|]. split; [simpl; ring|]. split; [intros j Hj; lia|].
    split; [lia|]. split; [left; assumption | reflexivity]. }
  induction i as [|i IH]; intros value p0.
  - exists O. simpl. destruct (ld_lt value 1) eqn:E.
    + split; [lia|]. split; [simpl; ring|]. split; [intros j Hj; lia|].
      split; [lia|]. split; [right; reflexivity | reflexivity].
    + apply Hstay, E.
  - simpl. destruct (ld_lt value 1) eqn:E.
    + apply ld_lt_spec in E.
      destruct (IH (value * r)%Q (char_at pfx i)) as [m Hm].
      exists (S m).
      destruct (si_down pfx r (value * r) i (char_at pfx i)) as [v2 p2].
      destruct Hm as (Hle & Hval & Hall & Hprev & Hstop & Hp).
      split; [lia|]. split; [rewrite Hval; simpl; ring|].
      split; [|split; [|split]].
      * intros [|j] Hj; simpl.
        -- lra.
        -- assert (Hj' : (value * r * qpow r j < 1)%Q) by (apply Hall; lia).
           lra.
      * intros _. destruct m as [|m].
        -- simpl in Hval. rewrite Hval.
           assert (value * r < 1 * r)%Q by (apply Qmult_lt_compat_r; assumption).
           lra.
        -- apply Hprev. lia.
      * destruct Hstop as [Hone | ->]; [left; assumption | right; reflexivity].
      * rewrite Hp. destruct m as [|m]; simpl; f_equal; lia.
    + exists O. apply Hstay, E.
Qed.

Lemma pfx_facts (is_bytes : bool) :
  let pfx := if is_bytes then pfx_024 else pfx_000 in
  pfx_middle pfx = 8%nat
  /\ length (drop 9 pfx) = 8%nat
  /\ Forall (fun a => chr_eqb a NUL = false) (drop 9 pfx)
  /\ char_at pfx 8 = " "%char.
Proof.
  destruct is_bytes; (split; [reflexivity|]); (split; [reflexivity|]);
    (split; [|reflexivity]); repeat constructor.
Qed.

(** C5 (amended).  For a ratio of 1000 or 1024 and a magnitude v >= 0:
    a zero magnitude comes back as zero with a blank prefix; a positive one
    comes back divided or multiplied by the ratio n times, n <= 8, with the
    prefix n places above or below the blank middle of the table; and when
    v lies within the reach of the table, ratio^-8 <= v < ratio^9, the
    scaled magnitude lies in [1, ratio).  The upper end is the ratio, not
    0.97 times the ratio: a value the first loop has taken just below 1 is
    multiplied back by the second. *)
Theorem si_prefix_scaled (v r : Q) (is_bytes : bool) :
  r = 1000%Q \/ r = 1024%Q ->
  (0 <= v)%Q ->
  let pfx := if is_bytes then pfx_024 else pfx_000 in
  let scaled := (pv__si_prefix v r is_bytes).1 in
  let prefix := (pv__si_prefix v r is_bytes).2 in
  (v == 0 -> scaled == 0 /\ Forall (fun c => c = " "%char) prefix)%Q
  /\ ((0 < v)%Q ->
      exists n : nat, (n <= 8)%nat /\
        ((scaled * qpow r n == v /\ head prefix = Some (char_at pfx (8 + n)))%Q
         \/ (scaled == v * qpow r n /\ head prefix = Some (char_at pfx (8 - n)))%Q))
  /\ ((1 <= v * qpow r 8)%Q -> (v < qpow r 9)%Q -> (1 <= scaled /\ scaled < r)%Q).
Proof.
  intros Hr Hv pfx scaled prefix.
  assert (Hrpos : (0 < r)%Q) by (destruct Hr as [-> | ->]; reflexivity).
  assert (Hc1 : (1 <= r * 0.97)%Q) by (destruct Hr as [-> | ->]; discriminate).
  assert (Hcr : (r * 0.97 < r)%Q) by (destruct Hr as [-> | ->]; reflexivity).
  destruct (pfx_facts is_bytes) as (Hmid & Hlen & Hnul & Hsp).
  fold pfx in Hmid, Hlen, Hnul, Hsp.
  subst scaled prefix. unfold pv__si_prefix. fold pfx. rewrite Hmid.
  destruct (ld_eq 0 v) eqn:Ez.
  - apply Qeq_bool_iff in Ez. simpl.
    split; [|split].
    + intros _. split; [symmetry; exact Ez|].
      destruct is_bytes; repeat constructor.
    + intros Hpos. rewrite <- Ez in Hpos. discriminate.
    + intros H1 _. rewrite <- Ez in H1. exfalso. revert H1. 
      apply Qlt_not_le. rewrite Qmult_0_l. reflexivity.
  - apply Qeq_bool_neq in Ez.
    assert (Hpos : (0 < v)%Q).
    { apply Qle_lt_or_eq in Hv. destruct Hv as [Hv | Hv]; [exact Hv | contradiction]. }
    destruct (si_up_spec r (r * 0.97)%Q (drop 9 pfx) Hrpos Hnul v 8%nat " "%char)
      as [k Hup].
    destruct (si_up r (r * 0.97) (drop 9 pfx) v 8 " ") as [[v1 i1] p1].
    destruct Hup as (Hk & Hv1 & Hkprev & Hkstop & Hp1).
    destruct (si_down_spec pfx r Hrpos i1 v1 p1) as [m Hdown].
    destruct (si_down pfx r v1 i1 p1) as [v2 p2].
    destruct Hdown as (Hm & Hv2 & Hmall & Hmprev & Hmstop & Hp2).
    rewrite Hlen in Hk, Hkstop.
    assert (Hhead : head (if is_bytes
                          then [p2; if chr_eqb p2 " " then " "%char else "i"%char]
                          else [p2]) = Some p2) by (destruct is_bytes; reflexivity).
    assert (Hfst : ((if is_bytes
                    then (v2, [p2; if chr_eqb p2 " " then " "%char else "i"%char])
                    else (v2, [p2])).1) = v2) by (destruct is_bytes; reflexivity).
    assert (Hsnd : head ((if is_bytes
                    then (v2, [p2; if chr_eqb p2 " " then " "%char else "i"%char])
                    else (v2, [p2])).2) = Some p2) by (destruct is_bytes; reflexivity).
    rewrite Hfst, Hsnd. clear Hhead Hfst Hsnd.
    assert (Hm0 : (1 <= m)%nat -> (v1 < 1)%Q).
    { intros H1m. specialize (Hmall O H1m). simpl in Hmall. lra. }
    assert (Hm1 : (2 <= m)%nat -> (v1 * r < 1)%Q).
    { intros H2m. specialize (Hmall 1%nat H2m). simpl in Hmall. lra. }
    split; [intros Hz; exfalso; apply Ez; symmetry; exact Hz|].
    destruct k as [|k].
    + (* no division *)
      simpl in Hv1. assert (Hv1' : (v1 == v)%Q) by lra.
      destruct Hkstop as [[Hle ->] | (_ & _ & Habs)]; [|discriminate].
      assert (Hshape : (v2 == v * qpow r m)%Q) by (rewrite Hv2, Hv1'; reflexivity).
      split.
      * intros _. exists m. split; [lia|]. right. split; [exact Hshape|].
        rewrite Hp2, Hp1. destruct m as [|m]; [rewrite Nat.sub_0_r, Hsp|]; reflexivity.
      * intros Hlo Hhi. split.
        -- destruct Hmstop as [H1 | ->]; [exact H1|].
           rewrite Hshape. exact Hlo.
        -- destruct m as [|m]; [|apply Hmprev; lia].
           simpl in Hv2. lra.
    + (* at least one division *)
      assert (Hgt : (r * 0.97 < v1 * r)%Q) by (apply Hkprev; lia).
      destruct m as [|m].
      * (* no multiplication *)
        simpl in Hv2. assert (Hv2' : (v2 == v1)%Q) by lra.
        split.
        -- intros _. exists (S k). split; [lia|]. left.
           split; [rewrite Hv2'; exact Hv1|].
           rewrite Hp2, Hp1, nth_skipn. reflexivity.
        -- intros Hlo Hhi. destruct Hkstop as [[Hle ->] | (Hgt1 & -> & Hk8)].
           ++ split; [|lra]. destruct Hmstop as [H1 | Habs]; [exact H1 | lia].
           ++ split; [lra|]. rewrite Hv2'. 
              injection Hk8 as ->.
              apply (Qmult_lt_r _ _ (qpow r 8)); [apply qpow_pos, Hrpos|].
              change (qpow r 9) with (r * qpow r 8)%Q in Hhi. 
              change (qpow r 8) with (r * qpow r 7)%Q. rewrite Hv1.
              change (qpow r 8) with (r * qpow r 7)%Q in Hhi. lra.
      * (* one multiplication, which undoes the last division *)
        assert (Hv1lt : (v1 < 1)%Q) by (apply Hm0; lia).
        destruct m as [|m]; [|exfalso; assert (v1 * r < 1)%Q by (apply Hm1; lia); lra].
        simpl in Hv2. assert (Hv2' : (v2 == v1 * r)%Q) by lra.
        destruct Hkstop as [[Hle ->] | (Hgt1 & _ & _)]; [|lra].
        split.
        -- intros _. exists k. split; [lia|]. left. split.
           ++ rewrite Hv2'. rewrite <- Hv1. simpl. ring.
           ++ rewrite Hp2. replace (8 + S k - 1)%nat with (8 + k)%nat by lia. reflexivity.
        -- intros _ _. split; [lra|]. apply Hmprev. lia.
Qed.

Lemma si_prefix_scaled_witness :
  (1 <= (pv__si_prefix 1536 1024 true).1
   /\ (pv__si_prefix 1536 1024 true).1 < 1024)%Q.
Proof.
  destruct (si_prefix_scaled 1536 1024 true) as (_ & _ & Hrange).
  - right. reflexivity.
  - discriminate.
  - apply Hrange; [discriminate | reflexivity].
Defined.

(** C5 as stated fails: 980 at ratio 1000 is a magnitude >= 0 that is not
    zero, and it comes back as 980, which is not below 1000 * 0.97. *)
Lemma si_prefix_range_counterexample :
  (0 <= 980)%Q /\ ~ (980 == 0)%Q
  /\ ~ (1 <= (pv__si_prefix 980 1000 false).1
        /\ (pv__si_prefix 980 1000 false).1 < 1000 * 0.97)%Q.
Proof.
  split; [discriminate|]. split; [discriminate|].
  intros [_ Hlt]. vm_compute in Hlt. discriminate.
Qed.

Example si_prefix_980 :
  pv__si_prefix 980 1000 false = ((980000 # 1000)%Q, lit " ").
Proof. reflexivity. Qed.

Example si_prefix_1536_bytes :
  pv__si_prefix 1536 1024 true = ((1536 # 1024)%Q, lit "Ki").
Proof. reflexivity. Qed.

Example si_prefix_beyond_table :
  pv__si_prefix (inject_Z (10 ^ 30)) 1000 false
  = ((10 ^ 30 # 10 ^ 24)%Q, lit "Y").
Proof. vm_compute. reflexivity. Qed.

(** ** The format compiler (C9) *)

Section Compiler.

Context `{PvInternal}.

Lemma char_at_lookup (fs : list ascii) (i : nat) :
  char_at fs i <> NUL -> fs !! i = Some (char_at fs i).
Proof.
  intros Hc. unfold char_at in *.
  destruct (nth_lookup_or_length fs i NUL) as [Hl | Hl]; [exact Hl|].
  exfalso. apply Hc. apply nth_overflow. lia.
Qed.


Lemma drop_char_at (fs : list ascii) (i : nat) :
  char_at fs i <> NUL -> drop i fs = char_at fs i :: drop (S i) fs.
Proof. intros Hc. apply drop_S, char_at_lookup, Hc. Qed.

Lemma chr_eqb_false (a b : ascii) : chr_eqb a b = false <-> a <> b.
Proof. apply Ascii.eqb_neq. Qed.

Lemma chr_eqb_true (a b : ascii) : chr_eqb a b = true <-> a = b.
Proof. apply Ascii.eqb_eq. Qed.










End Compiler.


Example format_init_unknown_letter :
  format (layout (Sample.sample_state "%z" 0 80))
  = [ {| seg_string := InFormat 0; seg_length := 2 |}; terminator ].
Proof. reflexivity. Qed.

Example format_init_trailing_percent :
  format (layout (Sample.sample_state "x%" 0 80))
  = [ {| seg_string := InFormat 0; seg_length := 1 |};
      {| seg_string := InFormat 1; seg_length := 1 |}; terminator ].
Proof. reflexivity. Qed.

(** With a width between the percent sign and the letter, the two
    characters passed through are the last digit and the letter. *)
Example format_init_width_then_unknown :
  format (layout (Sample.sample_state "%15z" 0 80))
  = [ {| seg_string := InFormat 2; seg_length := 2 |}; terminator ].
Proof. reflexivity. Qed.

Example format_init_spec_example :
  map seg_string (format (layout (Sample.sample_state "%N: %t %r %p" 0 80)))
  = [ InBuf str_name; InFormat 2; InBuf str_timer; InFormat 6;
      InBuf str_rate; InFormat 9; InBuf str_progress; NULL ].
Proof. reflexivity. Qed.

(** ** The average-rate window (C2) *)

Lemma mod_piece (x n : Z) :
  0 < n -> - n <= x < 2 * n ->
  x mod n = if x <? 0 then x + n else if x <? n then x else x - n.
Proof.
  intros Hn Hx.
  destruct (Z.ltb_spec x 0); [|destruct (Z.ltb_spec x n)].
  - symmetry. apply (Z.mod_unique_pos _ _ (-1)); lia.
  - apply Z.mod_small. lia.
  - symmetry. apply (Z.mod_unique_pos _ _ 1); lia.
Qed.

Lemma rem_piece (x n : Z) :
  0 < n -> 0 <= x < 2 * n -> c_mod x n = if x <? n then x else x - n.
Proof.
  intros Hn Hx. unfold c_mod. rewrite Z.rem_mod_nonneg by lia.
  rewrite mod_piece by lia. destruct (Z.ltb_spec x 0); [lia | reflexivity].
Qed.

Ltac pieces :=
  repeat match goal with
    | |- context [if ?a <? ?b then _ else _] => destruct (Z.ltb_spec a b)
    | |- context [if ?a =? ?b then _ else _] => destruct (Z.eqb_spec a b)
    | H : context [if ?a <? ?b then _ else _] |- _ => destruct (Z.ltb_spec a b)
    | H : context [if ?a =? ?b then _ else _] |- _ => destruct (Z.eqb_spec a b)
    end.

Lemma history_at_insert (h : list history_entry) (i j : Z) (x : history_entry) :
  0 <= i < Z.of_nat (length h) -> 0 <= j ->
  history_at (<[Z.to_nat i := x]> h) j
  = if j =? i then x else history_at h j.
Proof.
  intros Hi Hj. unfold history_at. destruct (Z.eqb_spec j i) as [-> | Hne].
  - rewrite list_lookup_insert_eq by lia. reflexivity.
  - rewrite list_lookup_insert_ne by lia. reflexivity.
Qed.

Lemma window_samples_lookup (s : pvstats) (h : list history_entry) (k : nat) :
  history s = Some h ->
  window_samples s !! k
  = if Z.of_nat k <? window_count s
    then Some (history_at h ((history_first s + Z.of_nat k) mod history_len s))
    else None.
Proof.
  intros Hh. unfold window_samples. rewrite Hh, list_lookup_fmap.
  destruct (Z.ltb_spec (Z.of_nat k) (window_count s)).
  - rewrite lookup_seq_lt by lia. reflexivity.
  - rewrite lookup_seq_ge by lia. reflexivity.
Qed.

Lemma window_samples_length (s : pvstats) (h : list history_entry) :
  history s = Some h ->
  length (window_samples s) = Z.to_nat (window_count s).
Proof.
  intros Hh. unfold window_samples. rewrite Hh, length_fmap, length_seq.
  reflexivity.
Qed.

(** The newest sample of the window is the entry at [history_last]. *)
Lemma window_newest (s : pvstats) (h : list history_entry) :
  history s = Some h ->
  0 <= history_first s < history_len s ->
  0 <= history_last s < history_len s ->
  list.last (window_samples s) = Some (history_at h (history_last s)).
Proof.
  intros Hh Hf Hl. rewrite last_lookup, (window_samples_length s h Hh).
  rewrite (window_samples_lookup s h _ Hh). unfold window_count.
  rewrite (mod_piece (history_last s - history_first s)) by lia.
  pieces; try lia.
  - do 2 f_equal. rewrite mod_piece by lia. pieces; lia.
  - do 2 f_equal. rewrite mod_piece by lia. pieces; lia.
Qed.



Example window_drops_oldest :
  let s0 :=
    {| percentage := 0; prev_elapsed_sec := 0; prev_rate := 0; prev_trans := 0;
       current_avg_rate := 0;
       history := Some [ {| hist_elapsed_sec := 1; hist_total_bytes := 100 |};
                         {| hist_elapsed_sec := 2; hist_total_bytes := 250 |} ];
       history_len := 2; history_interval := 1;
       history_first := 0; history_last := 1 |} in
  let s1 := update_history_avg_rate s0 300 3 50 in
  window_samples s1
  = [ {| hist_elapsed_sec := 2; hist_total_bytes := 250 |};
      {| hist_elapsed_sec := 3; hist_total_bytes := 300 |} ]
  /\ history_first s1 = 1
  /\ (current_avg_rate s1 == 50)%Q.
Proof. repeat split. Qed.

(** ** What a call of pv__format leaves alone *)

Section Frame.

Context `{PvInternal} `{Libc}.

Ltac split_pairs :=
  repeat match goal with
    | |- context [let '(_, _) := ?x in _] => destruct x
    end.

Lemma same_carry_refl (s : pvstats) : same_carry s s.
Proof. repeat split. Qed.

Lemma same_carry_trans (s1 s2 s3 : pvstats) :
  same_carry s1 s2 -> same_carry s2 s3 -> same_carry s1 s3.
Proof. unfold same_carry. intros (-> & -> & ->) (-> & -> & ->). repeat split. Qed.

Lemma set_percentage_carry (p : Z) (s : pvstats) :
  same_carry (set_percentage p s) s.
Proof. repeat split. Qed.

Lemma update_history_carry (s : pvstats) (total_bytes : Z) (elapsed_sec rate : Q) :
  same_carry (update_history_avg_rate s total_bytes elapsed_sec rate) s.
Proof.
  unfold update_history_avg_rate. destruct (history s); [|apply same_carry_refl].
  destruct (_ && _); [apply same_carry_refl|].
  destruct (ld_lt 0 _); repeat split.
Qed.

Lemma update_percentage_carry (o : pvopts) (l : pvlayout) (s : pvstats)
    (rate : Q) (total_bytes : Z) :
  same_carry (update_percentage o l s rate total_bytes) s.
Proof.
  unfold update_percentage. destruct (size o <=? 0); [apply set_percentage_carry|].
  destruct (_ || _); [apply set_percentage_carry | apply same_carry_refl].
Qed.

Lemma measure_carry (o : pvopts) (l : pvlayout) (s : pvstats)
    (elapsed_sec : Q) (bytes_since_last total_bytes : Z) :
  same_carry (measure o l s elapsed_sec bytes_since_last total_bytes).1
    (smooth_rate s elapsed_sec bytes_since_last).1.
Proof.
  unfold measure. destruct (smooth_rate s elapsed_sec bytes_since_last) as [s1 rate].
  destruct (final_rates _ _ _ _ _ _) as [[el r] a]. cbn [fst].
  eapply same_carry_trans; [apply update_percentage_carry|].
  apply update_history_carry.
Qed.

Lemma render_progress_stats (o : pvopts) (s : pvstats) (w : Z) :
  same_carry (render_progress o s w).2 s
  /\ (size o <= 0 -> (render_progress o s w).2 = s).
Proof.
  unfold render_progress.
  destruct (Z.gtb_spec (size o) 0) as [Hgt | Hle].
  - destruct (_ >? width o); (split; [apply set_percentage_carry | lia]).
  - destruct (_ >? width o); (split; [apply same_carry_refl | reflexivity]).
Qed.

Lemma format_line_frame (e : env) (st : pvstate)
    (elapsed_sec rate average_rate : Q) (bytes_since_last total_bytes : Z) :
  let st' := (format_line e st elapsed_sec rate average_rate
                bytes_since_last total_bytes).1 in
  opts st' = opts st /\ layout st' = layout st
  /\ exit_status st' = exit_status st
  /\ same_carry (stats st') (stats st)
  /\ (size (opts st) <= 0 -> stats st' = stats st).
Proof.
  unfold format_line. cbn [opts layout set_strs].
  destruct (uses (layout st) PV_DISPLAY_PROGRESS).
  - match goal with
    | |- context [render_progress ?o ?s ?w] =>
        pose proof (render_progress_stats o s w) as [Hc Hp];
        destruct (render_progress o s w) as [bar s1]
    end.
    split_pairs. cbn in *. repeat split; try reflexivity; try apply Hc.
    exact Hp.
  - split_pairs. cbn. repeat split; reflexivity.
Qed.

(** The shape of a call that renders a line: the statistics are brought up
    to date, the buffer is there, and [format_line] does the rest. *)
Lemma pv__format_line (e : env) (st : pvstate)
    (elapsed_sec : Q) (bytes_since_last total_bytes : Z) :
  0 <= total_bytes ->
  numeric (opts st) = false ->
  (ensure_buffer e (opts st) (out st)).2 = true ->
  let m := measure (opts st) (layout st) (stats st)
             elapsed_sec bytes_since_last total_bytes in
  let st1 := set_out (ensure_buffer e (opts st) (out st)).1 (set_stats m.1 st) in
  let r := format_line e st1 m.2.1.1 m.2.1.2 m.2.2 bytes_since_last total_bytes in
  pv__format e st elapsed_sec bytes_since_last total_bytes = (r.1, Some r.2).
Proof.
  intros Htb Hnum Hok m st1 r. unfold pv__format.
  destruct (Z.ltb_spec total_bytes 0); [lia|].
  subst r st1 m.
  destruct (measure _ _ _ _ _ _) as [s [[el rate] avg]].
  cbn [opts out set_stats set_out fst snd] in *.
  destruct (ensure_buffer e (opts st) (out st)) as [b ok].
  cbn [fst snd] in *. subst ok. cbn [negb]. rewrite Hnum.
  destruct (format_line _ _ _ _ _ _ _); reflexivity.
Qed.

Lemma pv__format_frame (e : env) (st : pvstate)
    (elapsed_sec : Q) (bytes_since_last total_bytes : Z) :
  let st' := (pv__format e st elapsed_sec bytes_since_last total_bytes).1 in
  opts st' = opts st /\ layout st' = layout st
  /\ (0 <= total_bytes ->
      same_carry (stats st')
        (smooth_rate (stats st) elapsed_sec bytes_since_last).1
      /\ (size (opts st) <= 0 ->
          stats st'
          = (measure (opts st) (layout st) (stats st)
               elapsed_sec bytes_since_last total_bytes).1)).
Proof.
  unfold pv__format.
  destruct (Z.ltb_spec total_bytes 0) as [Hneg | Hpos].
  { cbn. repeat split; lia. }
  pose proof (measure_carry (opts st) (layout st) (stats st)
                elapsed_sec bytes_since_last total_bytes) as Hcarry.
  destruct (measure _ _ _ _ _ _) as [s [[el rate] avg]].
  cbn [opts out set_stats set_out fst snd] in *.
  destruct (ensure_buffer e (opts st) (out st)) as [b ok].
  destruct ok; cbn [negb].
  - destruct (numeric (opts st)).
    + cbn. repeat split; try reflexivity; apply Hcarry.
    + match goal with
      | |- context [format_line ?e ?st1 ?a ?b ?c ?d ?f] =>
          pose proof (format_line_frame e st1 a b c d f) as Hf;
          destruct (format_line e st1 a b c d f) as [st2 line]
      end.
      cbn in Hf |- *. destruct Hf as (Ho & Hl & _ & Hc & Hs).
      split; [exact Ho|]. split; [exact Hl|]. intros _. split.
      * eapply same_carry_trans; [exact Hc | exact Hcarry].
      * exact Hs.
  - cbn. repeat split; try reflexivity; apply Hcarry.
Qed.

End Frame.

(** ** The scratch buffers after a call *)

Section Fields.

Context `{PvInternal} `{Libc}.

Lemma if_insert_ne (c : bool) (k k' : strbuf) (v : list ascii)
    (s : strbuf -> list ascii) :
  k <> k' -> (if c then <[k := v]> s else s) k' = s k'.
Proof. intros Hne. destruct c; [apply fn_lookup_insert_ne, Hne | reflexivity]. Qed.

Lemma if_insert_eq (c : bool) (k : strbuf) (v : list ascii)
    (s : strbuf -> list ascii) :
  (if c then <[k := v]> s else s) k = if c then v else s k.
Proof. destruct c; [apply fn_lookup_insert | reflexivity]. Qed.

Ltac skip_fields :=
  repeat first
    [ rewrite if_insert_ne by discriminate
    | rewrite fn_lookup_insert_ne by discriminate ].


Lemma render_fields_eta (e : env) (st : pvstate)
    (elapsed_sec rate average_rate : Q) (bytes_since_last total_bytes : Z) :
  let s := render_fields e st elapsed_sec rate average_rate
             bytes_since_last total_bytes in
  s str_eta
  = (if uses (layout st) PV_DISPLAY_ETA && (size (opts st) >? 0)
     then render_eta (opts st) (stats st) bytes_since_last total_bytes
     else [])
  /\ (size (opts st) <= 0 -> s str_fineta = []).
Proof.
  unfold render_fields. cbv zeta. split.
  - skip_fields. rewrite if_insert_eq. skip_fields.
    rewrite fn_lookup_insert. reflexivity.
  - intros Hsize. destruct (Z.gtb_spec (size (opts st)) 0); [lia|].
    rewrite andb_false_r. skip_fields. rewrite fn_lookup_insert. reflexivity.
Qed.

(** [format_line] changes the scratch buffers as [render_fields] says,
    and then only [str_progress]. *)
Lemma format_line_strs (e : env) (st : pvstate)
    (elapsed_sec rate average_rate : Q) (bytes_since_last total_bytes : Z)
    (b : strbuf) :
  b <> str_progress ->
  strs (format_line e st elapsed_sec rate average_rate
          bytes_since_last total_bytes).1 b
  = render_fields e st elapsed_sec rate average_rate
      bytes_since_last total_bytes b.
Proof.
  intros Hb. unfold format_line. cbn [opts layout set_strs].
  destruct (uses (layout st) PV_DISPLAY_PROGRESS).
  - destruct (render_progress _ _ _) as [bar s1].
    cbn [strs set_strs set_stats layout opts out].
    repeat match goal with
      | |- context [let '(_, _) := ?x in _] => destruct x
      end.
    cbn. apply fn_lookup_insert_ne. congruence.
  - repeat match goal with
      | |- context [let '(_, _) := ?x in _] => destruct x
      end.
    reflexivity.
Qed.

End Fields.

(** ** The rate smoother (C1) *)

Section Smoother.

Context `{PvInternal} `{Libc}.



End Smoother.

Section SmootherRuns.

Import Sample.


Example final_update_rates :
  let st := Sample.sample_state "%r %a" 0 80 in
  shown_rates st 4 (-1) 1000 = ((1000 # 4)%Q, (1000 # 4)%Q).
Proof. reflexivity. Qed.

End SmootherRuns.

(** ** The percentage of an unknown size (C3) *)

Section Percentage.

Context `{PvInternal} `{Libc}.

Lemma measure_percentage (o : pvopts) (l : pvlayout) (s : pvstats)
    (elapsed_sec : Q) (bytes_since_last total_bytes : Z) :
  size o <= 0 ->
  let m := measure o l s elapsed_sec bytes_since_last total_bytes in
  percentage m.1
  = (let p := percentage s in
     let p := if ld_lt 0 m.2.1.2 then p + 2 else p in
     if p >? 199 then 0 else p).
Proof.
  intros Hsize. unfold measure, smooth_rate.
  destruct (ld_le _ _);
    (match goal with
     | |- context [update_history_avg_rate ?s ?a ?b ?c] =>
         assert (Hp : percentage (update_history_avg_rate s a b c)
                      = percentage s)
           by (unfold update_history_avg_rate; cbn;
               destruct (history _); [|reflexivity];
               destruct (_ && _); [reflexivity|];
               destruct (ld_lt 0 _); reflexivity);
         cbn in Hp
     end);
    destruct (final_rates _ _ _ _ _ _) as [[el r] a]; cbn;
    unfold update_percentage;
    (destruct (Z.leb_spec (size o) 0); [|lia]); cbn; rewrite Hp; reflexivity.
Qed.

Lemma render_percentage (st : pvstate) (c : call) :
  size (opts st) <= 0 -> 0 <= call_total_bytes c ->
  percentage (stats (render st c))
  = (let p := percentage (stats st) in
     let p := if ld_lt 0 (call_rate st c) then p + 2 else p in
     if p >? 199 then 0 else p).
Proof.
  intros Hsize Htb. unfold render, call_rate, shown_rates.
  destruct (pv__format_frame (call_env c) st (call_elapsed_sec c)
              (call_bytes_since_last c) (call_total_bytes c))
    as (_ & _ & Hframe).
  destruct (Hframe Htb) as [_ ->]; [|exact Hsize].
  apply (measure_percentage _ _ _ _ _ _ Hsize).
Qed.

Lemma render_opts (st : pvstate) (c : call) : opts (render st c) = opts st.
Proof. unfold render. apply pv__format_frame. Qed.

Lemma run_snoc (st : pvstate) (calls : list call) (c : call) :
  run st (calls ++ [c]) = render (run st calls) c.
Proof. unfold run. rewrite fold_left_app. reflexivity. Qed.

Lemma run_opts (st : pvstate) (calls : list call) :
  opts (run st calls) = opts st.
Proof.
  unfold run. revert st.
  induction calls as [|c cs IH]; intros st; [reflexivity|].
  cbn [fold_left]. rewrite IH. apply render_opts.
Qed.

(** Along renders with an unknown size the counter started at an even
    value below 200 stays one, and moves by the number of positive rates. *)
Lemma run_percentage (calls : list call) :
  forall st p,
    size (opts st) <= 0 ->
    percentage (stats st) = p -> 0 <= p <= 198 -> Z.even p = true ->
    Forall (fun c => 0 <= call_total_bytes c) calls ->
    (0 <= percentage (stats (run st calls)) <= 198
     /\ Z.even (percentage (stats (run st calls))) = true)
    /\ (rates_positive st calls ->
        percentage (stats (run st calls))
        = (p + 2 * Z.of_nat (length calls)) mod 200).
Proof.
  induction calls as [|c cs IH]; intros st p Hsize Hp Hrange Heven Htb.
  - cbn. rewrite Hp. repeat split; try lia; try assumption.
    intros _. rewrite Z.add_0_r. symmetry. apply Z.mod_small. lia.
  - inversion Htb as [|? ? Hc Hcs]; subst.
    pose proof (render_percentage st c Hsize Hc) as Hstep. cbv zeta in Hstep.
    assert (Hparity : forall q, Z.even q = true -> Z.even (q + 2) = true).
    { intros q Hq. rewrite Z.even_add, Hq. reflexivity. }
    assert (Hnext : 0 <= percentage (stats (render st c)) <= 198
                    /\ Z.even (percentage (stats (render st c))) = true).
    { rewrite Hstep. destruct (ld_lt 0 (call_rate st c)).
      - destruct (Z.gtb_spec (percentage (stats st) + 2) 199).
        + split; [lia | reflexivity].
        + split; [|apply Hparity, Heven].
          assert (percentage (stats st) + 2 <> 199).
          { intros E. apply Hparity in Heven. rewrite E in Heven.
            discriminate. }
          lia.
      - destruct (Z.gtb_spec (percentage (stats st)) 199); [lia|].
        split; [lia | exact Heven]. }
    destruct Hnext as [Hr' He'].
    assert (Hsize' : size (opts (render st c)) <= 0)
      by (rewrite render_opts; exact Hsize).
    destruct (IH (render st c) _ Hsize' eq_refl Hr' He' Hcs) as [Hinv Hcount].
    split; [exact Hinv|].
    intros [Hpos Hrest]. cbn [run fold_left]. change (fold_left render cs (render st c))
      with (run (render st c) cs). rewrite (Hcount Hrest).
    rewrite Hstep. apply ld_lt_spec in Hpos. rewrite Hpos.
    cbn [length]. rewrite Nat2Z.inj_succ.
    destruct (Z.gtb_spec (percentage (stats st) + 2) 199).
    + assert (percentage (stats st) = 198) by lia.
      replace (percentage (stats st) + 2 * Z.succ (Z.of_nat (length cs)))
        with (0 + 2 * Z.of_nat (length cs) + 1 * 200) by lia.
      rewrite Z.mod_add by lia. reflexivity.
    + f_equal. lia.
Qed.

(** C3.  With an unknown total size (size <= 0), a render at a positive
    rate adds 2 to the saved percentage and sets it to 0 once that is above
    199; so n renders at positive rates from 0 leave 2n mod 200, and the
    counter takes the even values 0, 2, ..., 198 in turn.  A render at rate
    0 in a state reached from 0 leaves the counter as it was. *)
Theorem percentage_cycle (st : pvstate) (calls : list call) (c : call) :
  size (opts st) <= 0 ->
  percentage (stats st) = 0 ->
  Forall (fun c => 0 <= call_total_bytes c) calls ->
  0 <= call_total_bytes c ->
  let now := run st calls in
  let p := percentage (stats now) in
  (0 <= p <= 198 /\ Z.even p = true)
  /\ (rates_positive st calls -> p = (2 * Z.of_nat (length calls)) mod 200)
  /\ ((0 < call_rate now c)%Q ->
      percentage (stats (render now c)) = if p + 2 >? 199 then 0 else p + 2)
  /\ ((call_rate now c == 0)%Q -> percentage (stats (render now c)) = p).
Proof.
  intros Hsize Hp Hcalls Hc now p.
  destruct (run_percentage calls st 0 Hsize Hp ltac:(lia) eq_refl Hcalls)
    as [[Hrange Heven] Hcount].
  fold now in Hrange, Heven, Hcount. fold p in Hrange, Heven, Hcount.
  assert (Hsize' : size (opts now) <= 0)
    by (subst now; rewrite run_opts; exact Hsize).
  pose proof (render_percentage now c Hsize' Hc) as Hstep.
  cbv zeta in Hstep. fold p in Hstep.
  split; [split; assumption|]. split; [exact Hcount|]. split.
  - intros Hpos. apply ld_lt_spec in Hpos. rewrite Hstep, Hpos. reflexivity.
  - intros Hzero.
    assert (Hb : ld_lt 0 (call_rate now c) = false).
    { apply ld_lt_false. rewrite Hzero. apply Qle_refl. }
    rewrite Hstep, Hb. destruct (Z.gtb_spec p 199); [lia | reflexivity].
Qed.

End Percentage.

Section PercentageRuns.

Import Sample.

Lemma percentage_cycle_witness :
  let st := sample_state "%p" 0 80 in
  percentage (stats (run st [tick 1 100 100; tick 2 100 200])) = 4.
Proof.
  intros st.
  destruct (percentage_cycle st [tick 1 100 100; tick 2 100 200] (tick 3 0 200))
    as (_ & Hcount & _).
  - vm_compute. discriminate.
  - reflexivity.
  - repeat constructor; vm_compute; discriminate.
  - vm_compute. discriminate.
  - apply Hcount. repeat split.
Defined.

Example percentage_wraps :
  let st := sample_state "%p" 0 80 in
  percentage (stats (run st ((fun k => tick (inject_Z (Z.of_nat k)) 100 100)
                               <$> seq 1 100))) = 0
  /\ percentage (stats (run st ((fun k => tick (inject_Z (Z.of_nat k)) 100 100)
                                  <$> seq 1 99))) = 198.
Proof. vm_compute. split; reflexivity. Qed.

End PercentageRuns.

(** ** The ETA field (C4) *)

Section Eta.

Context `{PvInternal} `{Libc}.

Lemma no_nul_app (s t : list ascii) : no_nul s -> no_nul t -> no_nul (s ++ t).
Proof. apply Forall_app_2. Qed.

Lemma no_nul_take (n : nat) (s : list ascii) : no_nul s -> no_nul (take n s).
Proof. apply Forall_take. Qed.

Lemma no_nul_uint (d : Decimal.uint) :
  no_nul (lit (NilEmpty.string_of_uint d)).
Proof.
  induction d; cbn; constructor; try assumption; discriminate.
Qed.

Lemma no_nul_fmt_ld (n : Z) : no_nul (fmt_ld n).
Proof.
  unfold fmt_ld, NilZero.string_of_int, NilZero.string_of_uint.
  destruct (Z.to_int n) as [d | d].
  - destruct d; try apply no_nul_uint. repeat constructor; discriminate.
  - cbn. constructor; [discriminate|].
    destruct d; try apply no_nul_uint. repeat constructor; discriminate.
Qed.






End Eta.

Section EtaField.

Context `{PvInternal} `{Libc}.


End EtaField.

Section EtaRuns.

Import Sample.


Example eta_countdown :
  let st := sample_state "%e" 100 80 in
  shown (pv__format sample_env st 2 50 50) = Some "ETA 0:00:02"%string
  /\ shown (pv__format sample_env st 2 (-1) 50) = Some "           "%string.
Proof. split; reflexivity. Qed.

(** The rate that divides is the average rate as a long: at 2.5 bytes a
    second the remaining 10 bytes are given 10 / 2 = 5 seconds. *)
Example eta_uses_integer_rate :
  eta_seconds (sample_opts "%e" 20 80)
    {| percentage := 0; prev_elapsed_sec := 0; prev_rate := 0; prev_trans := 0;
       current_avg_rate := 2.5; history := None; history_len := 0;
       history_interval := 0; history_first := 0; history_last := 0 |} 10
  = 5.
Proof. reflexivity. Qed.

End EtaRuns.

(** ** The determinate progress bar (C6) *)

Section Bar.

Context `{PvInternal}.


Lemma cat_fits (c : string) (s : list ascii) :
  (length s + length (lit c) <= Z.to_nat (PV_SIZEOF_STR_PROGRESS - 1))%nat ->
  cat c s = s ++ lit c.
Proof.
  intros Hfit. unfold cat, pv_strlcat. f_equal. apply take_ge. lia.
Qed.

(** The fill loop, while what it may still append fits the buffer. *)
Lemma fill_loop (w : Z) (c : ascii) (n : nat) :
  forall i s,
    0 <= i ->
    (length s + Z.to_nat (w - Z.min i w)
     <= Z.to_nat (PV_SIZEOF_STR_PROGRESS - 1))%nat ->
    for_count n i
      (fun i s => if i <? w then cat (String c EmptyString) s else s) s
    = (s ++ replicate (Z.to_nat (Z.min (i + Z.of_nat n) w - Z.min i w)) c,
       i + Z.of_nat n).
Proof.
  induction n as [|n IH]; intros i s Hi Hfit.
  - cbn [for_count]. rewrite Z.add_0_r, Z.sub_diag. cbn.
    rewrite app_nil_r. reflexivity.
  - cbn [for_count]. destruct (Z.ltb_spec i w) as [Hlt | Hge].
    + rewrite cat_fits by (cbn; lia).
      rewrite IH by (try rewrite length_app; cbn; lia).
      rewrite <- app_assoc. f_equal; [|lia]. f_equal.
      replace (Z.to_nat (Z.min (i + Z.of_nat (S n)) w - Z.min i w))
        with (S (Z.to_nat (Z.min (i + 1 + Z.of_nat n) w - Z.min (i + 1) w)))
        by lia.
      reflexivity.
    + rewrite IH by lia. f_equal; [|lia]. f_equal. f_equal. lia.
Qed.

Lemma space_loop (n : nat) :
  forall (i : Z) s,
    (length s + n <= Z.to_nat (PV_SIZEOF_STR_PROGRESS - 1))%nat ->
    for_count n i (fun _ s => cat " " s) s = (s ++ spaces n, i + Z.of_nat n).
Proof.
  induction n as [|n IH]; intros i s Hfit.
  - cbn. rewrite app_nil_r, Z.add_0_r. reflexivity.
  - cbn [for_count]. rewrite cat_fits by (cbn; lia).
    rewrite IH by (rewrite length_app; cbn; lia).
    rewrite <- app_assoc. f_equal. lia.
Qed.


(** What [render_progress] calls [bar_known] with: a width in the range of
    the theorem above, the clamped percentage and its text; the bar is kept
    unless it does not fit the terminal. *)
Lemma render_progress_known (o : pvopts) (s : pvstats) (static_portion_size : Z) :
  0 < size o ->
  16 <= PV_SIZEOF_STR_PROGRESS < 2 ^ 31 ->
  let p := Z.max 0 (Z.min (percentage s) 100000) in
  let pct := pv_snprintf 16 (fmt_ld_w 2 p ++ lit "%") in
  let w := clamp_width
             (to_int (u32 (width o - static_portion_size)
                      - Z.of_nat (strlen pct) - 3)) in
  0 <= w <= PV_SIZEOF_STR_PROGRESS - 16
  /\ 0 <= p
  /\ percentage (render_progress o s static_portion_size).2 = p
  /\ ((render_progress o s static_portion_size).1 = bar_known w p pct
      \/ (render_progress o s static_portion_size).1 = []).
Proof.
  intros Hsize Hbuf p pct w.
  assert (Hp : (let q := if percentage s <? 0 then 0 else percentage s in
                if q >? 100000 then 100000 else q) = p).
  { cbv zeta. subst p. destruct (Z.ltb_spec (percentage s) 0);
      [destruct (Z.gtb_spec 0 100000); lia|].
    destruct (Z.gtb_spec (percentage s) 100000); lia. }
  cbv zeta in Hp.
  assert (Hw : 0 <= w <= PV_SIZEOF_STR_PROGRESS - 16).
  { subst w. unfold clamp_width.
    assert (Hint : to_int PV_SIZEOF_STR_PROGRESS = PV_SIZEOF_STR_PROGRESS).
    { unfold to_int. rewrite Z.mod_small by lia.
      destruct (Z.ltb_spec PV_SIZEOF_STR_PROGRESS (2 ^ 31)); lia. }
    rewrite Hint.
    match goal with
    | |- context [if ?x <? 0 then 0 else ?x] =>
        destruct (Z.ltb_spec x 0);
        [destruct (Z.gtb_spec 0 (PV_SIZEOF_STR_PROGRESS - 16)); lia
        |destruct (Z.gtb_spec x (PV_SIZEOF_STR_PROGRESS - 16)); lia]
    end. }
  split; [exact Hw|]. split; [lia|].
  unfold render_progress.
  destruct (Z.gtb_spec (size o) 0); [|lia].
  rewrite Hp. fold pct. fold w.
  destruct (_ >? width o); cbn [fst snd set_percentage percentage];
    (split; [reflexivity|]); [right | left]; reflexivity.
Qed.

End Bar.

Example determinate_bar_rendered :
  Sample.shown
    (pv__format (H := Sample.sample_internal) (H0 := Sample.sample_libc)
       Sample.sample_env (Sample.sample_state "%p" 100 20) 2 50 50)
  = Some "[======>       ] 50%"%string.
Proof. reflexivity. Qed.

Example determinate_bar_complete :
  Sample.shown
    (pv__format (H := Sample.sample_internal) (H0 := Sample.sample_libc)
       Sample.sample_env (Sample.sample_state "%p" 100 20) 2 50 100)
  = Some "[============>] 100%"%string.
Proof. reflexivity. Qed.



(** ** Line assembly (C7) *)

Section Assembly.

Context `{PvInternal} `{Libc}.

(** When the buffer is larger than the width by more than the two bytes
    the loop reserves, a segment cut to the buffer never passes the width
    test, and the loop emits whole segments only. *)
Lemma assemble_whole_spec (st : pvstate) (segs : list segment) :
  to_int (width (opts st)) < display_buffer_size (out st) - 2 ->
  forall buf len,
    (assemble st segs buf len).1
    = buf ++ assemble_whole (deref st) (display_buffer_size (out st))
               (to_int (width (opts st))) segs len.
Proof.
  intros Hroom. induction segs as [|seg rest IH]; intros buf len.
  - cbn. rewrite app_nil_r. reflexivity.
  - cbn [assemble assemble_whole].
    set (n := if seg_length seg >? 0 then seg_length seg
              else Z.of_nat (strlen (deref st (seg_string seg)))).
    assert (Hn : 0 <= n).
    { subst n. destruct (Z.gtb_spec (seg_length seg) 0); lia. }
    destruct (seg_string seg) as [|b|pos] eqn:Ep;
      [cbn; rewrite app_nil_r; reflexivity | |].
    all: fold n; destruct (Z.eqb_spec n 0) as [Hz | Hnz]; [apply IH|].
    all: destruct (Z.gtb_spec (n + len) (display_buffer_size (out st) - 2))
           as [Hcut | Hfit]; cbn [orb].
    all: try (destruct (Z.ltb_spec (display_buffer_size (out st) - len - 2) 1);
              [cbn; rewrite app_nil_r; reflexivity|];
              destruct (Z.gtb_spec (display_buffer_size (out st) - len - 2 + len)
                          (to_int (width (opts st)))); [|lia];
              cbn; rewrite app_nil_r; reflexivity).
    all: destruct (Z.ltb_spec n 1); [lia|].
    all: destruct (Z.gtb_spec (n + len) (to_int (width (opts st))));
           [cbn; rewrite app_nil_r; reflexivity|].
    all: rewrite IH; unfold strncat; rewrite <- app_assoc; reflexivity.
Qed.

End Assembly.

Section Line.

Context `{PvInternal} `{Libc}.

Lemma strlen_no_nul (s : list ascii) : no_nul s -> strlen s = length s.
Proof.
  induction 1 as [|c s Hc Hs IH]; [reflexivity|].
  cbn. apply chr_eqb_false in Hc. rewrite Hc, IH. reflexivity.
Qed.

Lemma no_nul_c_string (s : list ascii) : no_nul (take (strlen s) s).
Proof.
  induction s as [|c s IH]; cbn; [constructor|].
  destruct (chr_eqb c NUL) eqn:E; cbn; constructor; [|exact IH].
  apply chr_eqb_false, E.
Qed.

(** What the specification's assembly gives holds no NUL and, added to
    the length before it, stays within the width. *)
Lemma assemble_whole_fits (text_of : cptr -> list ascii) (capacity width : Z)
    (segs : list segment) :
  forall len,
    no_nul (assemble_whole text_of capacity width segs len)
    /\ len + Z.of_nat (length (assemble_whole text_of capacity width segs len))
       <= Z.max len width.
Proof.
  induction segs as [|seg rest IH]; intros len; cbn [assemble_whole].
  - split; [constructor | cbn; lia].
  - destruct (seg_string seg) as [|b|pos]; [split; [constructor | cbn; lia] | |].
    all: match goal with
         | |- context [if ?n =? 0 then _ else _] =>
             set (m := n);
             assert (Hm : 0 <= m)
               by (subst m; destruct (Z.gtb_spec (seg_length seg) 0); lia);
             destruct (Z.eqb_spec m 0); [apply IH|]
         end.
    all: destruct (Z.gtb_spec (m + len) (capacity - 2)); cbn [orb];
           [split; [constructor | cbn; lia]|].
    all: destruct (Z.gtb_spec (m + len) width);
           [split; [constructor | cbn; lia]|].
    all: destruct (IH (len + m)) as [IHn IHl]; split;
           [apply no_nul_app; [apply no_nul_take, no_nul_c_string | exact IHn]|].
    all: rewrite length_app, length_take; lia.
Qed.

(** After [ensure_buffer], for a width whose doubling does not wrap, the
    buffer holds twice the width and 80 bytes at least. *)
Lemma ensure_buffer_room (e : env) (o : pvopts) (b : pvout) :
  0 <= width o -> 2 * width o + 80 < 2 ^ 32 -> buffer_ok b ->
  let b' := (ensure_buffer e o b).1 in
  80 <= display_buffer_size b'
  /\ 2 * to_int (width o) <= display_buffer_size b'
  /\ to_int (width o) = width o
  /\ buffer_ok b'
  /\ prev_width b' = prev_width b /\ prev_length b' = prev_length b.
Proof.
  intros Hw Hwrap Hb.
  assert (Hint : to_int (width o) = width o).
  { unfold to_int. rewrite Z.mod_small by lia.
    destruct (Z.ltb_spec (width o) (2 ^ 31)); lia. }
  assert (Hdouble : u32 (width o * 2) = 2 * width o).
  { unfold u32. rewrite Z.mod_small by lia. lia. }
  assert (Hsize : u32 (u32 (2 * width o) + 80) = 2 * width o + 80).
  { unfold u32. rewrite (Z.mod_small (2 * width o)) by lia.
    rewrite Z.mod_small by lia. reflexivity. }
  unfold ensure_buffer. rewrite Hdouble, Hsize, Hint.
  assert (Hfresh : forall (d : option (list ascii)) (pw pl : Z),
    let sz := match name o with
              | Some n => 2 * width o + 80 + Z.of_nat (strlen n)
              | None => 2 * width o + 80
              end in
    80 <= sz /\ 2 * width o <= sz).
  { intros _ _ _. destruct (name o); cbn; lia. }
  destruct (display_buffer b) as [buf|] eqn:Ebuf.
  - destruct Hb as [Hb | Hb]; [congruence|].
    destruct (Z.ltb_spec (display_buffer_size b) (2 * width o)).
    + cbn. destruct (Hfresh None 0 0) as [H80 H2w].
      repeat split; try assumption. right. exact H80.
    + rewrite Ebuf. cbn. repeat split; try lia. right. exact Hb.
  - rewrite Ebuf. cbn. destruct (Hfresh None 0 0) as [H80 H2w].
    repeat split; try assumption. right. exact H80.
Qed.

(** The line of [format_line] when the buffer has room: the whole segments
    of the specification's assembly, and the spaces that cover a longer
    previous line unless the terminal has become narrower. *)
Lemma format_line_shape (e : env) (st : pvstate)
    (elapsed_sec rate average_rate : Q) (bytes_since_last total_bytes : Z) :
  80 <= display_buffer_size (out st) ->
  2 * to_int (width (opts st)) <= display_buffer_size (out st) ->
  let r := format_line e st elapsed_sec rate average_rate
             bytes_since_last total_bytes in
  let w := whole_line r.1 in
  let gap := prev_length (out st) - Z.of_nat (length w) in
  let k := if (0 <? gap) && (to_int (width (opts st)) >=? prev_width (out st))
           then Z.min gap 15 else 0 in
  r.2 = w ++ spaces (Z.to_nat k)
  /\ prev_length (out r.1) = Z.of_nat (length w) + k
  /\ prev_width (out r.1) = to_int (width (opts st))
  /\ display_buffer_size (out r.1) = display_buffer_size (out st).
Proof.
  intros H80 H2w. unfold format_line.
  set (st1 := set_strs _ st).
  set (st2 := if uses (layout st1) PV_DISPLAY_PROGRESS then _ else st1).
  assert (Hsame : opts st2 = opts st /\ out st2 = out st
                  /\ layout st2 = layout st).
  { subst st2. destruct (uses (layout st1) PV_DISPLAY_PROGRESS);
      [destruct (render_progress _ _ _)|]; repeat split. }
  destruct Hsame as (Ho & Hout & Hl).
  pose proof (assemble_whole_spec st2 (format (layout st2))) as Hspec.
  rewrite Ho, Hout in Hspec. specialize (Hspec ltac:(lia) [] 0).
  destruct (assemble st2 (format (layout st2)) [] 0) as [buf len].
  cbn [fst app] in Hspec. subst buf.
  set (w := assemble_whole _ _ _ _ _).
  destruct (assemble_whole_fits (deref st2) (display_buffer_size (out st))
              (to_int (width (opts st))) (format (layout st2)) 0)
    as [Hnul Hfit].
  fold w in Hnul, Hfit.
  unfold stabilise. rewrite (strlen_no_nul w Hnul), Ho, Hout.
  assert (Hwhole : forall b,
            display_buffer_size b = display_buffer_size (out st) ->
            whole_line (set_out b st2) = w).
  { intros b Hb. unfold whole_line. cbn [out opts layout set_out].
    rewrite Hb, Ho. reflexivity. }
  destruct (Z.ltb_spec (Z.of_nat (length w)) (prev_length (out st))) as [Hl1 | Hl1];
    destruct (Z.geb_spec (to_int (width (opts st))) (prev_width (out st)))
      as [Hw1 | Hw1]; cbn [andb fst snd];
    rewrite !Hwhole by reflexivity;
    cbn [out set_out prev_length prev_width display_buffer_size].
  - destruct (Z.ltb_spec 0 (prev_length (out st) - Z.of_nat (length w))); [|lia].
    cbn [andb].
    assert (Hk : (if prev_length (out st) - Z.of_nat (length w) >? 15 then 15
                  else prev_length (out st) - Z.of_nat (length w))
                 = Z.min (prev_length (out st) - Z.of_nat (length w)) 15).
    { destruct (Z.gtb_spec (prev_length (out st) - Z.of_nat (length w)) 15); lia. }
    rewrite Hk. split; [|repeat split].
    unfold pv_strlcat. rewrite take_ge; [reflexivity|].
    unfold spaces. rewrite length_replicate. lia.
  - destruct (0 <? _); cbn [andb]; rewrite app_nil_r, Z.add_0_r; repeat split.
  - destruct (Z.ltb_spec 0 (prev_length (out st) - Z.of_nat (length w))); [lia|].
    cbn [andb]. rewrite app_nil_r, Z.add_0_r. repeat split.
  - destruct (Z.ltb_spec 0 (prev_length (out st) - Z.of_nat (length w))); [lia|].
    cbn [andb]. rewrite app_nil_r, Z.add_0_r. repeat split.
Qed.

End Line.

Section RenderedLine.

Context `{PvInternal} `{Libc}.

(** The line a call returns when it renders one, for a width whose buffer
    size does not wrap. *)
Lemma pv__format_shape (e : env) (st : pvstate)
    (elapsed_sec : Q) (bytes_since_last total_bytes : Z) :
  0 <= total_bytes ->
  numeric (opts st) = false ->
  (ensure_buffer e (opts st) (out st)).2 = true ->
  0 <= width (opts st) -> 2 * width (opts st) + 80 < 2 ^ 32 ->
  buffer_ok (out st) ->
  let r := pv__format e st elapsed_sec bytes_since_last total_bytes in
  let w := whole_line r.1 in
  let gap := prev_length (out st) - Z.of_nat (length w) in
  let k := if (0 <? gap) && (width (opts st) >=? prev_width (out st))
           then Z.min gap 15 else 0 in
  r.2 = Some (w ++ spaces (Z.to_nat k))
  /\ prev_length (out r.1) = Z.of_nat (length w) + k
  /\ prev_width (out r.1) = width (opts st)
  /\ buffer_ok (out r.1).
Proof.
  intros Htb Hnum Hok Hw Hwrap Hbuf.
  pose proof (pv__format_line e st elapsed_sec bytes_since_last total_bytes
                Htb Hnum Hok) as Hline.
  cbv zeta in Hline. cbv zeta. rewrite Hline. cbn [fst snd].
  destruct (ensure_buffer_room e (opts st) (out st) Hw Hwrap Hbuf)
    as (H80 & H2w & Hint & _ & Hpw & Hpl).
  match goal with
  | |- context [format_line ?e ?st1 ?a ?b ?c ?d ?f] =>
      pose proof (format_line_shape e st1 a b c d f) as Hshape;
      set (r := format_line e st1 a b c d f) in *
  end.
  cbn [out opts set_out set_stats] in Hshape.
  specialize (Hshape H80 H2w). cbv zeta in Hshape.
  rewrite Hint, Hpw, Hpl in Hshape.
  destruct Hshape as (Hr & Hlen & Hwidth & Hsize).
  rewrite Hr, Hlen, Hwidth. repeat split.
  right. rewrite Hsize. exact H80.
Qed.

(** C7 (amended).  For a terminal width w with 2w + 80 < 2^32, and a
    buffer that [pv__format] allocated for such a width, the line of a
    render is made of whole segments in compiled order, empty ones passed
    over, up to the first that would overflow what the buffer can still
    take or the terminal width; that segment and all after it are left
    out, and only padding spaces follow.  (The loop itself cuts a segment
    that overflows the buffer to what still fits; the size of the buffer
    is what keeps a cut segment from passing the width test.) *)
Theorem line_assembly (e : env) (st : pvstate)
    (elapsed_sec : Q) (bytes_since_last total_bytes : Z) :
  0 <= total_bytes ->
  numeric (opts st) = false ->
  (ensure_buffer e (opts st) (out st)).2 = true ->
  0 <= width (opts st) -> 2 * width (opts st) + 80 < 2 ^ 32 ->
  buffer_ok (out st) ->
  let r := pv__format e st elapsed_sec bytes_since_last total_bytes in
  buffer_ok (out r.1)
  /\ exists pad : nat,
       (pad <= 15)%nat /\ r.2 = Some (whole_line r.1 ++ spaces pad).
Proof.
  intros Htb Hnum Hok Hw Hwrap Hbuf r.
  destruct (pv__format_shape e st elapsed_sec bytes_since_last total_bytes
              Htb Hnum Hok Hw Hwrap Hbuf) as (Hr & _ & _ & Hb).
  fold r in Hr, Hb. split; [exact Hb|].
  eexists. split; [|exact Hr].
  destruct (_ && _); lia.
Qed.

(** C8 (amended).  For a render after another, with the width and buffer
    as in C7: when the new line is shorter than the previous one and the
    terminal is as wide as at the previous render or wider, the line is
    followed by as many spaces as it is shorter, 15 at most, and that
    padded length is remembered; when the terminal is narrower than at
    the previous render, or the line is not shorter, nothing is added.  In
    every case the width is remembered for the next render. *)
Theorem line_padding (e : env) (st : pvstate)
    (elapsed_sec : Q) (bytes_since_last total_bytes : Z) :
  0 <= total_bytes ->
  numeric (opts st) = false ->
  (ensure_buffer e (opts st) (out st)).2 = true ->
  0 <= width (opts st) -> 2 * width (opts st) + 80 < 2 ^ 32 ->
  buffer_ok (out st) ->
  let r := pv__format e st elapsed_sec bytes_since_last total_bytes in
  let w := whole_line r.1 in
  let gap := prev_length (out st) - Z.of_nat (length w) in
  (0 < gap -> prev_width (out st) <= width (opts st) ->
   r.2 = Some (w ++ spaces (Z.to_nat (Z.min gap 15)))
   /\ prev_length (out r.1) = Z.of_nat (length w) + Z.min gap 15)
  /\ (width (opts st) < prev_width (out st) \/ gap <= 0 ->
      r.2 = Some w /\ prev_length (out r.1) = Z.of_nat (length w))
  /\ prev_width (out r.1) = width (opts st).
Proof.
  intros Htb Hnum Hok Hw Hwrap Hbuf r w gap.
  destruct (pv__format_shape e st elapsed_sec bytes_since_last total_bytes
              Htb Hnum Hok Hw Hwrap Hbuf) as (Hr & Hlen & Hwidth & _).
  fold r in Hr, Hlen, Hwidth. fold w in Hr, Hlen. fold gap in Hr, Hlen.
  split; [|split; [|exact Hwidth]].
  - intros Hgap Hwide.
    destruct (Z.ltb_spec 0 gap); [|lia].
    destruct (Z.geb_spec (width (opts st)) (prev_width (out st))); [|lia].
    split; assumption.
  - intros Hcase.
    assert (Hk : (if (0 <? gap) && (width (opts st) >=? prev_width (out st))
                  then Z.min gap 15 else 0) = 0).
    { destruct (Z.ltb_spec 0 gap);
        destruct (Z.geb_spec (width (opts st)) (prev_width (out st)));
        cbn; lia. }
    rewrite Hk in Hr, Hlen. cbn in Hr. rewrite app_nil_r in Hr.
    split; [exact Hr | lia].
Qed.

End RenderedLine.

Section LineRuns.

Import Sample.

Lemma line_assembly_witness :
  let st := sample_state "%t %b %p" 0 20 in
  exists pad : nat,
    (pv__format sample_env st 1 5 5).2
    = Some (whole_line (pv__format sample_env st 1 5 5).1 ++ spaces pad).
Proof.
  intros st.
  destruct (line_assembly sample_env st 1 5 5) as [_ (pad & _ & Hline)].
  - discriminate.
  - reflexivity.
  - reflexivity.
  - discriminate.
  - reflexivity.
  - left. reflexivity.
  - exists pad. exact Hline.
Defined.

(** C7 as stated fails: at the width 2^31 - 1 the buffer size wraps to 78
    bytes, and the one segment of a format of 100 characters is emitted in
    part, its first 76 characters. *)
Lemma line_assembly_counterexample :
  let st :=
    sample_state_with
      {| numeric := false; linemode := false; bits := false;
         size := 0; width := 2147483647; name := None;
         default_format := replicate 100 "x"%char; format_string := None;
         initial_offset := 0; buffer_size := 0;
         read_position := 0; write_position := 0;
         splice_used := false; lastoutput_buffer := [] |} in
  format (layout st)
  = [ {| seg_string := InFormat 0; seg_length := 100 |}; terminator ]
  /\ (pv__format sample_env st 1 0 0).2 = Some (replicate 76 "x"%char)
  /\ ~ exists pad : nat,
         (pv__format sample_env st 1 0 0).2
         = Some (whole_line (pv__format sample_env st 1 0 0).1 ++ spaces pad).
Proof.
  intros st. split; [reflexivity|]. split; [vm_compute; reflexivity|].
  intros [pad Hpad].
  assert (Hline : (pv__format sample_env st 1 0 0).2
                  = Some (replicate 76 "x"%char)) by (vm_compute; reflexivity).
  assert (Hwhole : whole_line (pv__format sample_env st 1 0 0).1 = [])
    by (vm_compute; reflexivity).
  rewrite Hline, Hwhole in Hpad. destruct pad; discriminate.
Qed.

Lemma line_padding_witness :
  let st1 :=
    (pv__format sample_env (sample_state "%e" 1000000000 80) 1 1000 1000).1 in
  (pv__format sample_env (pv_state_width_set st1 79) 3 500000000 500001000).2
  = Some (whole_line
            (pv__format sample_env (pv_state_width_set st1 79)
               3 500000000 500001000).1).
Proof.
  intros st1.
  destruct (line_padding sample_env (pv_state_width_set st1 79)
              3 500000000 500001000) as (_ & Hnarrow & _).
  - discriminate.
  - reflexivity.
  - reflexivity.
  - discriminate.
  - reflexivity.
  - right. vm_compute. discriminate.
  - apply Hnarrow. left. vm_compute. reflexivity.
Defined.

(** C8 as stated fails: the terminal has grown from 80 to 100 columns
    since the previous render, and the shorter line is padded all the
    same. *)
Lemma line_padding_counterexample :
  let st1 :=
    (pv__format sample_env (sample_state "%e" 1000000000 80) 1 1000 1000).1 in
  let r := pv__format sample_env (pv_state_width_set st1 100)
             3 500000000 500001000 in
  prev_width (out st1) = 80
  /\ width (opts (pv_state_width_set st1 100)) = 100
  /\ r.2 = Some (lit "ETA 0:00:01    ")
  /\ r.2 <> Some (whole_line r.1).
Proof. vm_compute. repeat split; discriminate. Qed.

End LineRuns.

(** ** The ETA fields of an unknown size (C10) *)

Section EtaUnknown.

Context `{PvInternal} `{Libc}.

(** A fixed-width field whose scratch buffer is empty is passed over by
    both loops over the format. *)
Lemma empty_field_skipped (st : pvstate) (b : strbuf) (rest : list segment) :
  strs st b = [] ->
  (forall buf len,
      assemble st (field b 0 :: rest) buf len = assemble st rest buf len)
  /\ (forall n,
      static_portion st (field b 0 :: rest) n = static_portion st rest n).
Proof.
  intros Hempty. split.
  - intros buf len. cbn [assemble field seg_string seg_length deref].
    rewrite Hempty. reflexivity.
  - intros n. cbn [static_portion field seg_string seg_length deref].
    rewrite Hempty. cbn. rewrite Z.add_0_r. reflexivity.
Qed.

(** C10.  A call that renders a line while the total size is not positive
    leaves [str_eta] and [str_fineta] empty, whether or not the format has
    the ETA directives; the segments that the directives %e and %I compile
    to then count for no width and add no character to the line. *)
Theorem eta_fields_unknown_size (e : env) (st : pvstate)
    (elapsed_sec : Q) (bytes_since_last total_bytes : Z) :
  size (opts st) <= 0 ->
  0 <= total_bytes ->
  numeric (opts st) = false ->
  (ensure_buffer e (opts st) (out st)).2 = true ->
  let st' := (pv__format e st elapsed_sec bytes_since_last total_bytes).1 in
  strs st' str_eta = [] /\ strs st' str_fineta = []
  /\ forall b rest,
       b = str_eta \/ b = str_fineta ->
       (forall buf len,
           assemble st' (field b 0 :: rest) buf len = assemble st' rest buf len)
       /\ (forall n,
           static_portion st' (field b 0 :: rest) n = static_portion st' rest n).
Proof.
  intros Hsize Htb Hnum Hok st'.
  pose proof (pv__format_line e st elapsed_sec bytes_since_last total_bytes
                Htb Hnum Hok) as Hline.
  cbv zeta in Hline.
  assert (Hstrs : strs st' str_eta = [] /\ strs st' str_fineta = []).
  { subst st'. rewrite Hline. cbn [fst].
    rewrite !format_line_strs by discriminate.
    match goal with
    | |- context [render_fields ?e ?st ?a ?b ?c ?d ?f] =>
        destruct (render_fields_eta e st a b c d f) as [Heta Hfin]
    end.
    cbn [opts layout set_out set_stats] in Heta, Hfin.
    rewrite Heta, (Hfin Hsize).
    destruct (Z.gtb_spec (size (opts st)) 0); [lia|].
    rewrite andb_false_r. split; reflexivity. }
  destruct Hstrs as [Heta Hfin].
  split; [exact Heta|]. split; [exact Hfin|].
  intros b rest [-> | ->]; apply empty_field_skipped; assumption.
Qed.

(** The directives %e and %I compile to these segments. *)
Lemma eta_directive_segments (fs : list ascii) (name_len : Z)
    (strpos : nat) (l : pvlayout) :
  char_at fs strpos = "%"%char ->
  (char_at fs (S strpos) = "e"%char ->
   (compile_directive fs name_len strpos l).1.1 = field str_eta 0)
  /\ (char_at fs (S strpos) = "I"%char ->
      (compile_directive fs name_len strpos l).1.1 = field str_fineta 0).
Proof.
  intros _.
  assert (Hscan : forall c, isdigit c = false -> c <> NUL ->
            char_at fs (S strpos) = c ->
            scan_digits (drop (S strpos) fs) 0 (S strpos) = (0, S strpos)).
  { intros c Hdig Hnul Hc.
    rewrite drop_char_at by (rewrite Hc; exact Hnul).
    cbn [scan_digits]. rewrite Hc, Hdig. reflexivity. }
  split; intros Hc; unfold compile_directive.
  - rewrite (Hscan "e"%char eq_refl ltac:(discriminate) Hc), Hc. reflexivity.
  - rewrite (Hscan "I"%char eq_refl ltac:(discriminate) Hc), Hc. reflexivity.
Qed.

End EtaUnknown.

Section EtaUnknownRuns.

Import Sample.

Lemma eta_fields_unknown_size_witness :
  let st := sample_state "%t %e %I" 0 80 in
  strs (pv__format sample_env st 2 50 50).1 str_eta = [].
Proof.
  intros st.
  destruct (eta_fields_unknown_size sample_env st 2 50 50) as (Heta & _ & _).
  - discriminate.
  - discriminate.
  - reflexivity.
  - reflexivity.
  - exact Heta.
Defined.

Example eta_directives_print_nothing :
  shown (pv__format sample_env (sample_state "%t|%e|%I|" 0 80) 2 50 50)
  = Some "0:00:02|||"%string.
Proof. reflexivity. Qed.

End EtaUnknownRuns.

(** * Further properties of the display code *)

(** ** The calculators *)



(** For a transfer under way at a positive rate the ETA is the number of
    whole seconds the rate needs for what is left: it is not negative, and
    what is left lies between ETA and ETA + 1 seconds of transfer. *)
Theorem calc_eta_whole_seconds (so_far total rate : Z) :
  1 <= so_far <= total -> 0 < rate ->
  let eta := pv__calc_eta so_far total rate in
  0 <= eta
  /\ eta * rate <= total - so_far < (eta + 1) * rate
  /\ (eta = 0 <-> total - so_far < rate).
Proof.
  intros Hsofar Hrate eta. subst eta. unfold pv__calc_eta, c_div.
  destruct (Z.ltb_spec so_far 1); [lia|].
  destruct (Z.eqb_spec 0 rate); [lia|]. cbn [orb].
  rewrite Z.quot_div_nonneg by lia.
  pose proof (Z.div_mod (total - so_far) rate ltac:(lia)) as Hdm.
  pose proof (Z.mod_pos_bound (total - so_far) rate Hrate) as Hmod.
  assert (0 <= (total - so_far) / rate) by (apply Z.div_pos; lia).
  split; [assumption|]. split; [nia|].
  split; intros E.
  - rewrite E in Hdm. lia.
  - apply Z.div_small. lia.
Qed.

Lemma calc_eta_whole_seconds_witness :
  pv__calc_eta 10 100 7 * 7 <= 100 - 10 < (pv__calc_eta 10 100 7 + 1) * 7.
Proof.
  destruct (calc_eta_whole_seconds 10 100 7) as (_ & Hleft & _).
  - lia.
  - lia.
  - exact Hleft.
Defined.

(** ** The history window beyond one observation *)

(** The samples of the window after any observation: unchanged below the
    interval, the new sample in place of the newest one while no positive
    time is stored, and otherwise the new sample appended, after the oldest
    has gone when the window was full. *)
Lemma window_step (s : pvstats) (total_bytes : Z) (elapsed_sec rate : Q)
    (h : list history_entry) :
  history s = Some h ->
  Z.of_nat (length h) = history_len s ->
  0 <= history_first s < history_len s ->
  0 <= history_last s < history_len s ->
  let s' := update_history_avg_rate s total_bytes elapsed_sec rate in
  let sample := {| hist_elapsed_sec := elapsed_sec;
                   hist_total_bytes := total_bytes |} in
  let newest := history_at h (history_last s) in
  let w := window_samples s in
  window_ok s'
  /\ history_len s' = history_len s
  /\ history_interval s' = history_interval s
  /\ window_samples s'
     = if ld_lt 0 (hist_elapsed_sec newest) then
         if ld_lt elapsed_sec
              (hist_elapsed_sec newest + inject_Z (history_interval s))%Q
         then w
         else (if window_count s =? history_len s then tail w else w)
                ++ [sample]
       else <[Z.to_nat (window_count s - 1) := sample]> w.
Proof.
  intros Hh Hlen Hf Hl s' sample newest w.
  assert (Hok : window_ok s) by (exists h; repeat split; try assumption; lia).
  subst s' newest w. unfold update_history_avg_rate. rewrite Hh.
  set (n := history_len s) in *.
  set (f := history_first s) in *.
  set (l := history_last s) in *.
  assert (Hn : 0 < n) by lia.
  assert (Hc : (f <= l /\ window_count s = l - f + 1)
               \/ (l < f /\ window_count s = l - f + n + 1)).
  { unfold window_count. fold n f l. rewrite mod_piece by lia. pieces; lia. }
  destruct (ld_lt 0 (hist_elapsed_sec (history_at h l))) eqn:Epos; cbn [andb].
  - destruct (ld_lt elapsed_sec _) eqn:Elt.
    { repeat split; try reflexivity. exact Hok. }
    assert (Hl' : (c_mod (l + 1) n = l + 1 /\ l + 1 < n)
                  \/ (c_mod (l + 1) n = 0 /\ l + 1 = n)).
    { rewrite rem_piece by lia. pieces; lia. }
    assert (Hf' : (c_mod (f + 1) n = f + 1 /\ f + 1 < n)
                  \/ (c_mod (f + 1) n = 0 /\ f + 1 = n)).
    { rewrite rem_piece by lia. pieces; lia. }
    set (l' := c_mod (l + 1) n) in *.
    set (f' := c_mod (f + 1) n) in *.
    destruct (Z.eqb_spec l' f) as [Efull | Enot].
    + (* full *)
      set (s' := {| percentage := _ |}).
      assert (Hcnt : window_count s = n) by lia.
      assert (Hcnt' : window_count s' = n).
      { unfold window_count. cbn. fold n.
        rewrite mod_piece by lia. pieces; lia. }
      rewrite Hcnt, Z.eqb_refl.
      split; [|split; [reflexivity|split; [reflexivity|]]].
      { exists (<[Z.to_nat l' := sample]> h). cbn. fold n.
        rewrite length_insert. repeat split; try assumption; lia. }
      apply list_eq. intros k.
      rewrite (window_samples_lookup s' _ k eq_refl), Hcnt'.
      rewrite lookup_app, lookup_tail, (window_samples_lookup s h _ Hh), Hcnt.
      rewrite length_tl, (window_samples_length s h Hh), Hcnt.
      cbn [history_first history_len s']. fold n f.
      rewrite history_at_insert by (try apply Z.mod_pos_bound; lia).
      clearbody l' f'.
      destruct (Z.ltb_spec (Z.of_nat (S k)) n) as [Hk | Hk].
      * destruct (Z.ltb_spec (Z.of_nat k) n); [|lia].
        rewrite !mod_piece by lia.
        pieces; try lia; do 2 f_equal; lia.
      * destruct (Z.ltb_spec (Z.of_nat k) n) as [Hk' | Hk'].
        -- replace (k - (Z.to_nat n - 1))%nat with O by lia.
           rewrite !mod_piece by lia. pieces; try lia; reflexivity.
        -- rewrite lookup_ge_None_2; [reflexivity|]. simpl. lia.
    + (* room *)
      set (s' := {| percentage := _ |}).
      assert (Hcnt : window_count s < n) by lia.
      assert (Hcnt' : window_count s' = window_count s + 1).
      { unfold window_count at 1. cbn. fold n f.
        rewrite mod_piece by lia. pieces; lia. }
      destruct (Z.eqb_spec (window_count s) n); [lia|].
      split; [|split; [reflexivity|split; [reflexivity|]]].
      { exists (<[Z.to_nat l' := sample]> h). cbn. fold n f.
        rewrite length_insert. repeat split; try assumption; lia. }
      apply list_eq. intros k.
      rewrite (window_samples_lookup s' _ k eq_refl), Hcnt'.
      rewrite lookup_app, (window_samples_lookup s h _ Hh).
      rewrite (window_samples_length s h Hh).
      cbn [history_first history_len s']. fold n f.
      rewrite history_at_insert by (try apply Z.mod_pos_bound; lia).
      set (c := window_count s) in *. clearbody c l' f'.
      destruct (Z.ltb_spec (Z.of_nat k) c) as [Hk | Hk];
        destruct (Z.ltb_spec (Z.of_nat k) (c + 1)) as [Hk1 | Hk1]; try lia.
      * rewrite mod_piece by lia. pieces; try lia; reflexivity.
      * replace (k - Z.to_nat c)%nat with O by lia.
        rewrite mod_piece by lia. pieces; try lia; reflexivity.
      * rewrite lookup_ge_None_2; [reflexivity | simpl; lia].
  - (* no positive time stored yet: the newest entry is overwritten *)
    set (s' := {| percentage := _ |}).
    assert (Hcnt' : window_count s' = window_count s) by reflexivity.
    split; [|split; [reflexivity|split; [reflexivity|]]].
    { exists (<[Z.to_nat l := sample]> h). cbn. fold n f l.
      rewrite length_insert. repeat split; try assumption; lia. }
    apply list_eq. intros k.
    rewrite (window_samples_lookup s' _ k eq_refl), Hcnt'.
    cbn [history_first history_len s']. fold n f.
    rewrite history_at_insert by (try apply Z.mod_pos_bound; lia).
    destruct (Nat.eq_dec k (Z.to_nat (window_count s - 1))) as [-> | Hne].
    + rewrite list_lookup_insert_eq
        by (rewrite (window_samples_length s h Hh); lia).
      destruct (Z.ltb_spec (Z.of_nat (Z.to_nat (window_count s - 1)))
                  (window_count s)); [|lia].
      rewrite mod_piece by lia. pieces; try lia; reflexivity.
    + rewrite list_lookup_insert_ne by lia.
      rewrite (window_samples_lookup s h _ Hh). fold n f.
      destruct (Z.ltb_spec (Z.of_nat k) (window_count s)); [|reflexivity].
      rewrite !mod_piece by lia. pieces; try lia; reflexivity.
Qed.

Lemma spaced_tail (d : Q) (w : list history_entry) :
  spaced d w -> spaced d (tail w).
Proof.
  intros Hw i a b Ha Hb. rewrite lookup_tail in Ha, Hb. exact (Hw _ _ _ Ha Hb).
Qed.

Lemma spaced_take (d : Q) (n : nat) (w : list history_entry) :
  spaced d w -> spaced d (take n w).
Proof.
  intros Hw i a b Ha Hb.
  apply lookup_take_Some in Ha as [Ha _]. apply lookup_take_Some in Hb as [Hb _].
  exact (Hw _ _ _ Ha Hb).
Qed.

Lemma spaced_snoc (d : Q) (w : list history_entry) (x : history_entry) :
  spaced d w ->
  (forall a, list.last w = Some a ->
             (hist_elapsed_sec a + d <= hist_elapsed_sec x)%Q) ->
  spaced d (w ++ [x]).
Proof.
  intros Hw Hlast i a b Ha Hb.
  destruct (Nat.lt_ge_cases (S i) (length w)) as [Hlt | Hge].
  - rewrite lookup_app_l in Ha, Hb by lia. exact (Hw _ _ _ Ha Hb).
  - assert (Hi : S i = length w).
    { apply lookup_lt_Some in Hb. rewrite length_app in Hb. simpl in Hb. lia. }
    rewrite lookup_app_l in Ha by lia.
    rewrite lookup_app_r in Hb by lia.
    replace (S i - length w)%nat with O in Hb by lia. injection Hb as <-.
    apply Hlast. rewrite last_lookup. rewrite <- Hi. exact Ha.
Qed.

(** In a window whose samples are spaced by [d >= 0], a later sample is at
    least [d] later in time than any earlier one. *)
Lemma spaced_later (d : Q) (w : list history_entry) :
  spaced d w -> (0 <= d)%Q ->
  forall j i a b,
    (i < j)%nat -> w !! i = Some a -> w !! j = Some b ->
    (hist_elapsed_sec a + d <= hist_elapsed_sec b)%Q.
Proof.
  intros Hw Hd. induction j as [|j IH]; intros i a b Hij Ha Hb; [lia|].
  destruct (Nat.eq_dec i j) as [-> | Hne]; [exact (Hw _ _ _ Ha Hb)|].
  destruct (lookup_lt_is_Some_2 w j) as [c Hc].
  { apply lookup_lt_Some in Hb. lia. }
  pose proof (IH i a c ltac:(lia) Ha Hc) as H1.
  pose proof (Hw _ _ _ Hc Hb) as H2. lra.
Qed.

(** The history window is a ring of fixed size: an observation never
    changes the length of the array nor the configured length and interval,
    keeps both indices inside the array, and leaves between one sample and
    [history_len] samples in the window.  Without a history array it does
    nothing. *)
Theorem window_stays_in_bounds (s : pvstats) (total_bytes : Z)
    (elapsed_sec rate : Q) :
  let s' := update_history_avg_rate s total_bytes elapsed_sec rate in
  (history s = None -> s' = s)
  /\ (window_ok s ->
      window_ok s'
      /\ history_len s' = history_len s
      /\ history_interval s' = history_interval s
      /\ (length <$> history s') = (length <$> history s)
      /\ 1 <= Z.of_nat (length (window_samples s')) <= history_len s).
Proof.
  intros s'. split.
  { intros Hnone. subst s'. unfold update_history_avg_rate. rewrite Hnone.
    reflexivity. }
  intros (h & Hh & Hlen & Hf & Hl).
  destruct (window_step s total_bytes elapsed_sec rate h Hh Hlen Hf Hl)
    as (Hok & Hn & Hi & _).
  fold s' in Hok, Hn, Hi.
  split; [exact Hok|]. split; [exact Hn|]. split; [exact Hi|].
  destruct Hok as (h' & Hh' & Hlen' & Hf' & Hl').
  split.
  - rewrite Hh', Hh. cbn. f_equal. lia.
  - rewrite (window_samples_length s' h' Hh'). unfold window_count.
    pose proof (Z.mod_pos_bound (history_last s' - history_first s')
                  (history_len s') ltac:(lia)).
    lia.
Qed.

(** While the newest stored sample has no positive time (a fresh window, or
    one whose only observation so far was at time 0), an observation takes
    the place of that sample instead of being appended: the indices stay,
    and a window of one sample reports the rate passed in. *)
Theorem window_first_observation (s : pvstats) (total_bytes : Z)
    (elapsed_sec rate : Q) (newest : history_entry) :
  window_ok s ->
  list.last (window_samples s) = Some newest ->
  (hist_elapsed_sec newest <= 0)%Q ->
  let s' := update_history_avg_rate s total_bytes elapsed_sec rate in
  let sample := {| hist_elapsed_sec := elapsed_sec;
                   hist_total_bytes := total_bytes |} in
  history_first s' = history_first s
  /\ history_last s' = history_last s
  /\ window_samples s'
     = <[Nat.pred (length (window_samples s)) := sample]> (window_samples s)
  /\ (history_first s = history_last s -> current_avg_rate s' = rate).
Proof.
  intros (h & Hh & Hlen & Hf & Hl) Hnewest Hzero s' sample.
  rewrite (window_newest s h Hh Hf Hl) in Hnewest. injection Hnewest as <-.
  apply ld_lt_false in Hzero.
  destruct (window_step s total_bytes elapsed_sec rate h Hh Hlen Hf Hl)
    as (_ & _ & _ & Hw).
  cbv zeta in Hw. rewrite Hzero in Hw. fold s' in Hw.
  assert (Hidx : Z.to_nat (window_count s - 1)
                 = Nat.pred (length (window_samples s))).
  { rewrite (window_samples_length s h Hh). lia. }
  rewrite Hidx in Hw.
  subst s'. unfold update_history_avg_rate in *. rewrite Hh, Hzero in *.
  cbn [andb] in *. cbn.
  split; [reflexivity|]. split; [reflexivity|]. split; [exact Hw|].
  intros ->. rewrite Z.eqb_refl. reflexivity.
Qed.

(** Observations at times that are not negative keep the samples of the
    window at least one interval apart, oldest to newest; with a positive
    interval the newest sample of a window of two or more is therefore
    strictly later than the oldest, and the average rate is never a
    division by zero. *)
Theorem window_stays_spaced (s : pvstats) (total_bytes : Z)
    (elapsed_sec rate : Q) :
  window_ok s ->
  (0 <= elapsed_sec)%Q ->
  0 <= history_interval s ->
  spaced (inject_Z (history_interval s)) (window_samples s) ->
  let s' := update_history_avg_rate s total_bytes elapsed_sec rate in
  spaced (inject_Z (history_interval s')) (window_samples s')
  /\ (0 < history_interval s ->
      forall oldest newest rest,
        window_samples s' = oldest :: rest ->
        list.last rest = Some newest ->
        (0 < hist_elapsed_sec newest - hist_elapsed_sec oldest)%Q).
Proof.
  intros (h & Hh & Hlen & Hf & Hl) Hel Hint Hsp s'.
  assert (Hd : (0 <= inject_Z (history_interval s))%Q).
  { change 0%Q with (inject_Z 0). rewrite <- Zle_Qle. exact Hint. }
  destruct (window_step s total_bytes elapsed_sec rate h Hh Hlen Hf Hl)
    as (_ & _ & Hi & Hw).
  cbv zeta in Hw. fold s' in Hw, Hi. rewrite Hi.
  pose proof (window_newest s h Hh Hf Hl) as Hnewest.
  set (d := inject_Z (history_interval s)) in *.
  set (x := {| hist_elapsed_sec := elapsed_sec;
               hist_total_bytes := total_bytes |}) in *.
  assert (Hspaced : spaced d (window_samples s')).
  { rewrite Hw.
    destruct (ld_lt 0 (hist_elapsed_sec (history_at h (history_last s))))
      eqn:Epos.
    - destruct (ld_lt elapsed_sec _) eqn:Elt; [exact Hsp|].
      apply ld_lt_false in Elt.
      assert (Hlast : forall a, list.last (window_samples s) = Some a ->
                (hist_elapsed_sec a + d <= hist_elapsed_sec x)%Q).
      { intros a Ha. rewrite Hnewest in Ha. injection Ha as <-. exact Elt. }
      destruct (window_count s =? history_len s).
      + apply spaced_snoc; [apply spaced_tail, Hsp|].
        intros a Ha. apply Hlast.
        rewrite last_lookup in Ha |- *. rewrite lookup_tail, length_tl in Ha.
        destruct (window_samples s) as [|y [|z w]]; cbn in *;
          [discriminate | discriminate | exact Ha].
      + apply spaced_snoc; assumption.
    - apply ld_lt_false in Epos.
      assert (Hne : (0 < length (window_samples s))%nat).
      { rewrite (window_samples_length s h Hh). unfold window_count.
        pose proof (Z.mod_pos_bound (history_last s - history_first s)
                      (history_len s) ltac:(lia)). lia. }
      assert (Hidx : Z.to_nat (window_count s - 1)
                     = Nat.pred (length (window_samples s))).
      { rewrite (window_samples_length s h Hh). lia. }
      rewrite Hidx, insert_take_drop by lia.
      replace (S (Nat.pred (length (window_samples s))))
        with (length (window_samples s)) by lia.
      rewrite drop_all.
      apply spaced_snoc; [apply spaced_take, Hsp|].
      intros a Ha. rewrite last_lookup in Ha.
      apply lookup_take_Some in Ha as [Ha Hlt].
      rewrite length_take in Ha, Hlt.
      rewrite last_lookup in Hnewest.
      assert (Hstep : (hist_elapsed_sec a + d
                       <= hist_elapsed_sec (history_at h (history_last s)))%Q).
      { apply (Hsp _ _ _ Ha).
        replace (S (Nat.pred (Nat.pred (length (window_samples s))
                                `min` length (window_samples s))))
          with (Nat.pred (length (window_samples s))) by lia.
        exact Hnewest. }
      cbn [hist_elapsed_sec x]. lra. }
  split; [exact Hspaced|].
  intros Hpos oldest newest rest Hcons Hlast.
  assert (Hdpos : (0 < d)%Q).
  { subst d. change 0%Q with (inject_Z 0). rewrite <- Zlt_Qlt. exact Hpos. }
  rewrite Hcons in Hspaced. rewrite last_lookup in Hlast.
  assert (Hrest : (0 < length rest)%nat).
  { destruct rest; [discriminate | cbn; lia]. }
  pose proof (spaced_later d (oldest :: rest) Hspaced Hd (length rest) O
                oldest newest ltac:(lia) eq_refl) as Hlater.
  assert (Hj : (oldest :: rest) !! length rest = Some newest).
  { destruct (length rest) as [|m] eqn:Em; [lia|]. cbn in Hlast |- *.
    exact Hlast. }
  specialize (Hlater Hj). lra.
Qed.

Lemma window_stays_spaced_witness :
  let s0 :=
    {| percentage := 0; prev_elapsed_sec := 0; prev_rate := 0; prev_trans := 0;
       current_avg_rate := 0;
       history := Some [ {| hist_elapsed_sec := 1; hist_total_bytes := 100 |};
                         {| hist_elapsed_sec := 2; hist_total_bytes := 250 |} ];
       history_len := 2; history_interval := 1;
       history_first := 0; history_last := 1 |} in
  spaced 1 (window_samples (update_history_avg_rate s0 300 3 50)).
Proof.
  intros s0.
  destruct (window_stays_spaced s0 300 3 50) as [Hsp _].
  - eexists. split; [reflexivity|]. split; [reflexivity|]. split; simpl; lia.
  - discriminate.
  - simpl. lia.
  - intros [|[|i]] a b Ha Hb; cbn in Ha, Hb; try discriminate.
    injection Ha as <-. injection Hb as <-. discriminate.
  - exact Hsp.
Defined.

Lemma window_stays_in_bounds_witness :
  let s0 :=
    {| percentage := 0; prev_elapsed_sec := 0; prev_rate := 0; prev_trans := 0;
       current_avg_rate := 0;
       history := Some [ {| hist_elapsed_sec := 1; hist_total_bytes := 100 |};
                         {| hist_elapsed_sec := 2; hist_total_bytes := 250 |} ];
       history_len := 2; history_interval := 1;
       history_first := 0; history_last := 1 |} in
  1 <= Z.of_nat (length (window_samples (update_history_avg_rate s0 300 3 50)))
    <= 2.
Proof.
  intros s0.
  destruct (window_stays_in_bounds s0 300 3 50) as [_ Hin].
  destruct Hin as (_ & _ & _ & _ & Hcount).
  - eexists. split; [reflexivity|]. split; [reflexivity|]. split; simpl; lia.
  - exact Hcount.
Defined.

(** An observation at time 0 into a fresh window, and the one after it:
    the second takes the place of the first. *)
Lemma window_first_observation_witness :
  let s0 :=
    {| percentage := 0; prev_elapsed_sec := 0; prev_rate := 0; prev_trans := 0;
       current_avg_rate := 0;
       history := Some [ {| hist_elapsed_sec := 0; hist_total_bytes := 40 |};
                         {| hist_elapsed_sec := 0; hist_total_bytes := 0 |} ];
       history_len := 2; history_interval := 1;
       history_first := 0; history_last := 0 |} in
  window_samples (update_history_avg_rate s0 300 3 50)
  = [ {| hist_elapsed_sec := 3; hist_total_bytes := 300 |} ].
Proof.
  intros s0.
  destruct (window_first_observation s0 300 3 50
              {| hist_elapsed_sec := 0; hist_total_bytes := 40 |})
    as (_ & _ & Hw & _).
  - eexists. split; [reflexivity|]. split; [reflexivity|]. split; simpl; lia.
  - reflexivity.
  - discriminate.
  - rewrite Hw. reflexivity.
Defined.

(** ** The output buffer *)

Section Buffer.

Context `{PvInternal} `{Libc}.

(** The assembly loop, in any state: what it builds holds no NUL, is no
    longer than the length it counts, and that count stays within the room
    of the buffer and within the width. *)
Lemma assemble_bounds (st : pvstate) (segs : list segment) :
  forall buf len,
    no_nul buf -> Z.of_nat (length buf) <= len ->
    let r := assemble st segs buf len in
    no_nul r.1
    /\ Z.of_nat (length r.1) <= r.2
    /\ r.2 <= Z.max len (Z.min (display_buffer_size (out st) - 2)
                           (to_int (width (opts st)))).
Proof.
  induction segs as [|seg rest IH]; intros buf len Hnul Hlen;
    cbn [assemble].
  - cbn. repeat split; try assumption; lia.
  - set (n := if seg_length seg >? 0 then seg_length seg
              else Z.of_nat (strlen (deref st (seg_string seg)))).
    assert (Hgoal : forall r,
      r = (if n =? 0 then assemble st rest buf len
           else
             let k := if n + len >? display_buffer_size (out st) - 2
                      then display_buffer_size (out st) - len - 2 else n in
             if k <? 1 then (buf, len)
             else if k + len >? to_int (width (opts st)) then (buf, len)
             else assemble st rest (strncat buf (deref st (seg_string seg)) k)
                    (len + k)) ->
      no_nul r.1 /\ Z.of_nat (length r.1) <= r.2
      /\ r.2 <= Z.max len (Z.min (display_buffer_size (out st) - 2)
                             (to_int (width (opts st))))).
    { intros r ->. destruct (Z.eqb_spec n 0); [apply IH; assumption|].
      cbv zeta.
      set (k := if n + len >? display_buffer_size (out st) - 2
                then display_buffer_size (out st) - len - 2 else n).
      assert (Hk : k <= display_buffer_size (out st) - 2 - len).
      { subst k. destruct (Z.gtb_spec (n + len)
                             (display_buffer_size (out st) - 2)); lia. }
      clearbody k.
      destruct (Z.ltb_spec k 1); [cbn; repeat split; try assumption; lia|].
      destruct (Z.gtb_spec (k + len) (to_int (width (opts st))));
        [cbn; repeat split; try assumption; lia|].
      assert (Hb : no_nul (strncat buf (deref st (seg_string seg)) k)).
      { unfold strncat. apply no_nul_app;
          [assumption | apply no_nul_take, no_nul_c_string]. }
      assert (Hl : Z.of_nat (length (strncat buf (deref st (seg_string seg)) k))
                   <= len + k).
      { unfold strncat. rewrite length_app, length_take. lia. }
      destruct (IH _ _ Hb Hl) as (I1 & I2 & I3).
      repeat split; try assumption. lia. }
    destruct (seg_string seg) as [|b|pos] eqn:Ep;
      [cbn; repeat split; try assumption; lia | |];
      apply Hgoal; reflexivity.
Qed.

Lemma strlcat_length (dst src : list ascii) (size : Z) :
  Z.of_nat (length (pv_strlcat dst src size))
  <= Z.max (Z.of_nat (length dst)) (size - 1)
  /\ Z.of_nat (length (pv_strlcat dst src size))
     <= Z.of_nat (length dst) + Z.of_nat (length src).
Proof.
  unfold pv_strlcat. rewrite length_app, length_take. lia.
Qed.

(** The line of [format_line], in any state: it fits the buffer, it is
    what the state then holds as its buffer, and it stays within the wider
    of the terminal and the previous line. *)
Lemma format_line_length (e : env) (st : pvstate)
    (elapsed_sec rate average_rate : Q) (bytes_since_last total_bytes : Z) :
  let r := format_line e st elapsed_sec rate average_rate
             bytes_since_last total_bytes in
  let W := to_int (width (opts st)) in
  display_buffer (out r.1) = Some r.2
  /\ display_buffer_size (out r.1) = display_buffer_size (out st)
  /\ Z.of_nat (length r.2) <= Z.max 0 (display_buffer_size (out st) - 1)
  /\ (0 <= W ->
      Z.of_nat (length r.2) <= Z.max W (prev_length (out st))
      /\ prev_length (out r.1) <= Z.max W (prev_length (out st))).
Proof.
  unfold format_line.
  set (st1 := set_strs _ st).
  set (st2 := if uses (layout st1) PV_DISPLAY_PROGRESS then _ else st1).
  assert (Hsame : opts st2 = opts st /\ out st2 = out st).
  { subst st2. destruct (uses (layout st1) PV_DISPLAY_PROGRESS);
      [destruct (render_progress _ _ _)|]; repeat split. }
  destruct Hsame as (Ho & Hout).
  pose proof (assemble_bounds st2 (format (layout st2)) [] 0
                ltac:(constructor) ltac:(cbn; lia)) as Hb.
  cbv zeta in Hb. rewrite Ho, Hout in Hb.
  destruct (assemble st2 (format (layout st2)) [] 0) as [buf len].
  cbn [fst snd] in Hb. destruct Hb as (Hnul & Hlen & Hroom).
  unfold stabilise. rewrite (strlen_no_nul buf Hnul), Ho, Hout.
  set (size := display_buffer_size (out st)) in *.
  set (W := to_int (width (opts st))) in *.
  set (pl := prev_length (out st)) in *.
  set (lb := Z.of_nat (length buf)) in *.
  destruct ((lb <? pl) && (W >=? prev_width (out st))) eqn:Epad;
    cbn [fst snd out set_out display_buffer display_buffer_size prev_length].
  - apply andb_true_iff in Epad as [Hshort _].
    apply Z.ltb_lt in Hshort.
    set (k := if pl - lb >? 15 then 15 else pl - lb).
    assert (Hk : 0 <= k <= pl - lb).
    { subst k. destruct (Z.gtb_spec (pl - lb) 15); lia. }
    clearbody k.
    destruct (strlcat_length buf (spaces (Z.to_nat k)) size) as [L1 L2].
    replace (length (spaces (Z.to_nat k))) with (Z.to_nat k) in L2
      by (unfold spaces; rewrite length_replicate; reflexivity).
    fold lb in L1, L2.
    split; [reflexivity|]. split; [reflexivity|]. split; [lia|].
    intros HW. split; lia.
  - split; [reflexivity|]. split; [reflexivity|]. fold lb. split; [lia|].
    intros HW. split; lia.
Qed.

(** The four ways through [pv__format]: release, failed allocation,
    numeric mode, and a rendered line. *)
Lemma pv__format_paths (e : env) (st : pvstate)
    (elapsed_sec : Q) (bytes_since_last total_bytes : Z) :
  let r := pv__format e st elapsed_sec bytes_since_last total_bytes in
  let m := measure (opts st) (layout st) (stats st)
             elapsed_sec bytes_since_last total_bytes in
  let b := ensure_buffer e (opts st) (out st) in
  let st1 := set_out b.1 (set_stats m.1 st) in
  (total_bytes < 0 ->
   r = (set_out (set_display_buffer None (out st)) st, None))
  /\ (0 <= total_bytes -> b.2 = false ->
      r = (set_exit_status (Z.lor (exit_status st) 64) st1, None))
  /\ (0 <= total_bytes -> b.2 = true -> numeric (opts st) = true ->
      let line := numeric_line (opts st) (layout st) m.1 b.1 m.2.1.1
                    total_bytes in
      r = (set_out (set_display_buffer (Some line) b.1) st1, Some line))
  /\ (0 <= total_bytes -> b.2 = true -> numeric (opts st) = false ->
      let l := format_line e st1 m.2.1.1 m.2.1.2 m.2.2
                 bytes_since_last total_bytes in
      r = (l.1, Some l.2)).
Proof.
  cbv zeta. unfold pv__format.
  destruct (Z.ltb_spec total_bytes 0) as [Hneg | Hpos].
  { split; [reflexivity|]. repeat split; intros; lia. }
  split; [intros; lia|].
  destruct (measure _ _ _ _ _ _) as [s [[el rate] avg]].
  cbn [opts out set_stats set_out fst snd layout stats exit_status].
  destruct (ensure_buffer e (opts st) (out st)) as [b ok].
  cbn [fst snd]. destruct ok; cbn [negb].
  - split; [intros _ [=]|]. destruct (numeric (opts st)).
    + split; [reflexivity|]. intros _ _ [=].
    + split; [intros _ _ [=]|]. intros _ _ _.
      destruct (format_line _ _ _ _ _ _ _); reflexivity.
  - split; [reflexivity|]. split; intros _ [=].
Qed.

Lemma ensure_buffer_flag (e : env) (o : pvopts) (b : pvout) :
  let r := ensure_buffer e o b in
  (r.2 = true <-> display_buffer r.1 <> None)
  /\ prev_width r.1 = prev_width b /\ prev_length r.1 = prev_length b
  /\ (r.2 = false ->
      malloc_ok e = false
      /\ (display_buffer b = None
          \/ display_buffer_size b < u32 (width o * 2))).
Proof.
  unfold ensure_buffer.
  destruct (display_buffer b) as [buf|] eqn:Eb.
  - destruct (Z.ltb_spec (display_buffer_size b) (u32 (width o * 2))).
    + cbn. destruct (malloc_ok e); repeat split; try congruence;
        intros; try discriminate; auto.
    + rewrite Eb. cbn. repeat split; try congruence; intros; discriminate.
  - rewrite Eb. cbn. destruct (malloc_ok e); repeat split; try congruence;
      intros; try discriminate; auto.
Qed.

(** What [pv__format] returns is the buffer of the state it leaves, or NULL
    when that state has none; and a string it returns never holds more
    than the size of the buffer less one character. *)
Theorem returned_line_is_buffer (e : env) (st : pvstate)
    (elapsed_sec : Q) (bytes_since_last total_bytes : Z) :
  let r := pv__format e st elapsed_sec bytes_since_last total_bytes in
  r.2 = display_buffer (out r.1)
  /\ forall line,
       r.2 = Some line ->
       Z.of_nat (length line) <= Z.max 0 (display_buffer_size (out r.1) - 1).
Proof.
  intros r.
  destruct (pv__format_paths e st elapsed_sec bytes_since_last total_bytes)
    as (Hrel & Hfail & Hnum & Hline).
  fold r in Hrel, Hfail, Hnum, Hline.
  destruct (Z.ltb_spec total_bytes 0) as [Hneg | Hpos].
  { rewrite (Hrel Hneg). cbn. split; [reflexivity | intros line [=]]. }
  destruct (ensure_buffer_flag e (opts st) (out st)) as (Hflag & _ & _ & _).
  destruct ((ensure_buffer e (opts st) (out st)).2) eqn:Eok.
  - destruct (numeric (opts st)) eqn:Enum.
    + rewrite (Hnum Hpos eq_refl eq_refl). cbn. split; [reflexivity|].
      intros line [= <-]. unfold numeric_line, pv_snprintf.
      repeat match goal with
        | |- context [if ?c then _ else _] => destruct c
        end; rewrite length_take; lia.
    + rewrite (Hline Hpos eq_refl eq_refl). cbn [fst snd].
      match goal with
      | |- context [format_line ?e ?s ?a ?b ?c ?d ?f] =>
          destruct (format_line_length e s a b c d f) as (Hbuf & Hsize & Hlen & _)
      end.
      split; [symmetry; exact Hbuf|].
      intros line [= <-]. rewrite Hsize. exact Hlen.
  - rewrite (Hfail Hpos eq_refl). cbn. split; [|intros line [=]].
    destruct (display_buffer (ensure_buffer e (opts st) (out st)).1) eqn:Eb;
      [|reflexivity].
    exfalso. assert (Habs : false = true) by (apply Hflag; discriminate).
    discriminate.
Qed.

End Buffer.

Section Sessions.

Context `{PvInternal} `{Libc}.

(** A call with a negative total is the release: it returns NULL and drops
    the buffer, and touches nothing else; a second release finds the state
    as the first left it. *)
Theorem release_is_idempotent (e e' : env) (st : pvstate)
    (elapsed_sec elapsed_sec' : Q)
    (bytes_since_last bytes_since_last' total_bytes total_bytes' : Z) :
  total_bytes < 0 -> total_bytes' < 0 ->
  let r := pv__format e st elapsed_sec bytes_since_last total_bytes in
  r.2 = None
  /\ display_buffer (out r.1) = None
  /\ stats r.1 = stats st /\ layout r.1 = layout st /\ opts r.1 = opts st
  /\ strs r.1 = strs st /\ exit_status r.1 = exit_status st
  /\ prev_length (out r.1) = prev_length (out st)
  /\ prev_width (out r.1) = prev_width (out st)
  /\ pv__format e' r.1 elapsed_sec' bytes_since_last' total_bytes' = (r.1, None).
Proof.
  intros Hneg Hneg' r.
  destruct (pv__format_paths e st elapsed_sec bytes_since_last total_bytes)
    as (Hrel & _).
  fold r in Hrel. rewrite (Hrel Hneg). cbn [fst snd].
  repeat split.
  destruct (pv__format_paths e' (set_out (set_display_buffer None (out st)) st)
              elapsed_sec' bytes_since_last' total_bytes') as (Hrel' & _).
  rewrite (Hrel' Hneg'). reflexivity.
Qed.

(** When the buffer cannot be allocated the call returns NULL, raises bit
    6 of the exit status (the value 64), leaves the state without a buffer
    and the scratch buffers and the remembered line as they were, while the
    statistics advance as in any other call; this happens only when
    [malloc] fails for a state that has no buffer or has outgrown it. *)
Theorem allocation_failure (e : env) (st : pvstate)
    (elapsed_sec : Q) (bytes_since_last total_bytes : Z) :
  0 <= total_bytes ->
  (ensure_buffer e (opts st) (out st)).2 = false ->
  let r := pv__format e st elapsed_sec bytes_since_last total_bytes in
  r.2 = None
  /\ Z.testbit (exit_status r.1) 6 = true
  /\ (forall n, Z.testbit (exit_status st) n = true ->
                Z.testbit (exit_status r.1) n = true)
  /\ display_buffer (out r.1) = None
  /\ stats r.1
     = (measure (opts st) (layout st) (stats st)
          elapsed_sec bytes_since_last total_bytes).1
  /\ strs r.1 = strs st
  /\ prev_length (out r.1) = prev_length (out st)
  /\ malloc_ok e = false
  /\ (display_buffer (out st) = None
      \/ display_buffer_size (out st) < u32 (width (opts st) * 2)).
Proof.
  intros Htb Hfail r.
  destruct (pv__format_paths e st elapsed_sec bytes_since_last total_bytes)
    as (_ & Hpath & _).
  fold r in Hpath. rewrite (Hpath Htb Hfail). cbn [fst snd].
  destruct (ensure_buffer_flag e (opts st) (out st))
    as (Hflag & _ & Hpl & Hwhy).
  cbn [exit_status set_exit_status out set_out stats set_stats strs].
  split; [reflexivity|]. split; [|split].
  - rewrite Z.lor_spec. apply orb_true_r.
  - intros n Hn. rewrite Z.lor_spec, Hn. reflexivity.
  - split.
    + destruct (display_buffer (ensure_buffer e (opts st) (out st)).1) eqn:Eb;
        [|reflexivity].
      exfalso. rewrite Hfail in Hflag.
      assert (Habs : false = true) by (apply Hflag; discriminate).
      discriminate.
    + destruct (Hwhy Hfail) as [Hm Hb]. repeat split; assumption.
Qed.

(** A session: a terminal width whose buffer size does not wrap, a buffer
    that is absent or was allocated for such a width, and a remembered
    line that fits the terminal. *)
Lemma render_keeps_session (st : pvstate) (c : call) :
  0 <= width (opts st) -> 2 * width (opts st) + 80 < 2 ^ 32 ->
  buffer_ok (out st) -> prev_length (out st) <= width (opts st) ->
  buffer_ok (out (render st c))
  /\ prev_length (out (render st c)) <= width (opts st).
Proof.
  intros Hw Hwrap Hbuf Hprev. unfold render.
  destruct (pv__format_paths (call_env c) st (call_elapsed_sec c)
              (call_bytes_since_last c) (call_total_bytes c))
    as (Hrel & Hfail & Hnum & Hline).
  destruct (ensure_buffer_room (call_env c) (opts st) (out st) Hw Hwrap Hbuf)
    as (H80 & H2w & Hint & Hok & Hpw & Hpl).
  destruct (ensure_buffer_flag (call_env c) (opts st) (out st))
    as (Hflag & _ & _ & _).
  destruct (Z.ltb_spec (call_total_bytes c) 0) as [Hneg | Hpos].
  { rewrite (Hrel Hneg). cbn. split; [left; reflexivity | exact Hprev]. }
  destruct ((ensure_buffer (call_env c) (opts st) (out st)).2) eqn:Eok.
  - destruct (numeric (opts st)) eqn:Enum.
    + rewrite (Hnum Hpos eq_refl eq_refl). cbn.
      split; [right; exact H80 | lia].
    + rewrite (Hline Hpos eq_refl eq_refl). cbn [fst].
      match goal with
      | |- context [format_line ?e ?s ?a ?b ?c ?d ?f] =>
          destruct (format_line_length e s a b c d f) as (_ & Hsize & _ & HW)
      end.
      cbn [opts out set_out set_stats] in Hsize, HW.
      rewrite Hint in HW. destruct (HW Hw) as [_ Hp].
      split; [right; rewrite Hsize; exact H80 | lia].
  - rewrite (Hfail Hpos eq_refl). cbn. split; [|lia].
    left. destruct (display_buffer _) eqn:Eb; [|reflexivity].
    exfalso. assert (Habs : false = true) by (apply Hflag; discriminate).
    discriminate.
Qed.

Lemma run_keeps_session (calls : list call) :
  forall st,
    0 <= width (opts st) -> 2 * width (opts st) + 80 < 2 ^ 32 ->
    buffer_ok (out st) -> prev_length (out st) <= width (opts st) ->
    buffer_ok (out (run st calls))
    /\ prev_length (out (run st calls)) <= width (opts st).
Proof.
  induction calls as [|c cs IH]; intros st Hw Hwrap Hbuf Hprev.
  - split; assumption.
  - destruct (render_keeps_session st c Hw Hwrap Hbuf Hprev) as [Hb Hp].
    change (run st (c :: cs)) with (run (render st c) cs).
    rewrite <- (render_opts st c) in Hw, Hwrap, Hp |- *.
    apply IH; assumption.
Qed.

(** From a state without a buffer or with one of its own making, and a
    remembered line that fits, every line rendered later in the session, in
    any order of renders, releases and failed allocations, is at most as
    long as the terminal is wide, and the buffer stays large enough for
    whole segments only to be emitted. *)
Theorem line_within_width (st : pvstate) (calls : list call) (c : call) :
  0 <= width (opts st) -> 2 * width (opts st) + 80 < 2 ^ 32 ->
  numeric (opts st) = false ->
  buffer_ok (out st) -> prev_length (out st) <= width (opts st) ->
  let now := run st calls in
  buffer_ok (out now)
  /\ forall line,
       (pv__format (call_env c) now (call_elapsed_sec c)
          (call_bytes_since_last c) (call_total_bytes c)).2 = Some line ->
       Z.of_nat (length line) <= width (opts st).
Proof.
  intros Hw Hwrap Hnum Hbuf Hprev now.
  destruct (run_keeps_session calls st Hw Hwrap Hbuf Hprev) as [Hb Hp].
  fold now in Hb, Hp. split; [exact Hb|].
  assert (Ho : opts now = opts st) by apply run_opts.
  intros line.
  destruct (pv__format_paths (call_env c) now (call_elapsed_sec c)
              (call_bytes_since_last c) (call_total_bytes c))
    as (Hrel & Hfail & _ & Hline).
  destruct (Z.ltb_spec (call_total_bytes c) 0) as [Hneg | Hpos].
  { rewrite (Hrel Hneg). intros [=]. }
  destruct ((ensure_buffer (call_env c) (opts now) (out now)).2) eqn:Eok.
  - rewrite Ho, Hnum in Hline. rewrite (Hline Hpos eq_refl eq_refl).
    cbn [snd]. intros [= <-].
    match goal with
    | |- context [format_line ?e ?s ?a ?b ?c ?d ?f] =>
        destruct (format_line_length e s a b c d f) as (_ & _ & _ & HW)
    end.
    cbn [opts out set_out set_stats] in HW.
    destruct (ensure_buffer_room (call_env c) (opts now) (out now))
      as (_ & _ & Hint & _ & _ & Hpl); rewrite ?Ho; try assumption.
    rewrite Ho in Hint, Hpl, HW. rewrite Hint, Hpl in HW.
    destruct (HW Hw) as [Hlen _]. lia.
  - rewrite (Hfail Hpos eq_refl). intros [=].
Qed.

End Sessions.

(** ** The compiled format and its mask *)

Section Mask.

Context `{PvInternal} `{Libc}.

Lemma compile_directive_flag (fs : list ascii) (name_len : Z)
    (strpos : nat) (l : pvlayout) :
  let r := compile_directive fs name_len strpos l in
  components_used r.2
  = Z.lor (components_used l) (seg_flag r.1.1).
Proof.
  unfold compile_directive.
  destruct (scan_digits (drop (S strpos) fs) 0 (S strpos)) as [num p].
  destruct (directive_of (char_at fs p)); cbn;
    rewrite ?Z.lor_0_r; reflexivity.
Qed.

Lemma compile_loop_flags (fs : list ascii) (name_len : Z) (room : nat) :
  forall strpos l,
    let r := compile_loop fs name_len room strpos l in
    components_used r.2
    = fold_left Z.lor (seg_flag <$> r.1) (components_used l).
Proof.
  induction room as [|room IH]; intros strpos l; cbn [compile_loop].
  - reflexivity.
  - destruct (chr_eqb (char_at fs strpos) NUL); [reflexivity|].
    destruct (chr_eqb "%" (char_at fs strpos)).
    + pose proof (compile_directive_flag fs name_len strpos l) as Hd.
      destruct (compile_directive fs name_len strpos l) as [[seg p] l'].
      specialize (IH (S p) l').
      destruct (compile_loop fs name_len room (S p) l') as [segs l''].
      cbn in *. rewrite IH, Hd. reflexivity.
    + destruct (compile_literal fs strpos) as [seg p] eqn:El.
      assert (Hflag : seg_flag seg = 0).
      { unfold compile_literal in El. injection El as <- _. reflexivity. }
      specialize (IH (S p) l).
      destruct (compile_loop fs name_len room (S p) l) as [segs l''].
      cbn in *. rewrite IH, Hflag, Z.lor_0_r. reflexivity.
Qed.

Lemma fold_lor_has (flags : list Z) :
  forall a x,
    (Z.land a x = x \/ x ∈ flags) ->
    Z.land (fold_left Z.lor flags a) x = x.
Proof.
  induction flags as [|f flags IH]; intros a x Hx; cbn.
  - destruct Hx as [Hx | Hx]; [exact Hx | inversion Hx].
  - apply IH. destruct Hx as [Hx | Hx].
    + left. rewrite Z.land_lor_distr_l, Hx. apply Z.bits_inj'. intros n Hn.
      rewrite Z.lor_spec, Z.land_spec. destruct (Z.testbit x n);
        rewrite ?andb_true_r, ?andb_false_r, ?orb_true_l, ?orb_false_l;
        reflexivity.
    + apply elem_of_cons in Hx as [-> | Hx]; [|right; exact Hx].
      left. rewrite Z.land_lor_distr_l, Z.land_diag.
      apply Z.bits_inj'. intros n Hn.
      rewrite Z.lor_spec, Z.land_spec. destruct (Z.testbit f n);
        rewrite ?andb_true_r, ?andb_false_r, ?orb_true_r, ?orb_false_r;
        reflexivity.
Qed.

(** The mask of a compiled format is the union of the bits of the fields
    its segments point at, neither more nor less; so every field that has
    a segment in the format has its bit in the mask and is rendered. *)
Theorem mask_matches_segments (st : pvstate) :
  let l := layout (pv__format_init st) in
  components_used l = fold_left Z.lor (seg_flag <$> format l) 0
  /\ forall seg, seg ∈ format l ->
       Z.land (components_used l) (seg_flag seg) = seg_flag seg.
Proof.
  intros l.
  assert (Hmask : components_used l
                  = fold_left Z.lor (seg_flag <$> format l) 0).
  { subst l. unfold pv__format_init.
    match goal with
    | |- context [compile_loop ?a ?b ?c ?d ?e] =>
        pose proof (compile_loop_flags a b c d e) as Hf;
        destruct (compile_loop a b c d e) as [segs l']
    end.
    cbn in *. rewrite fmap_app, fold_left_app. cbn.
    rewrite Z.lor_0_r. exact Hf. }
  split; [exact Hmask|].
  intros seg Hseg. rewrite Hmask. apply fold_lor_has. right.
  apply list_elem_of_fmap. exists seg. split; [reflexivity | exact Hseg].
Qed.

End Mask.

(** ** A format without directives *)

Section Plain.

Context `{PvInternal} `{Libc}.

Lemma strchr_absent (s : list ascii) (c : ascii) :
  Forall (fun a => a <> c) s -> strchr s c = None.
Proof.
  induction 1 as [|a s Ha Hs IH]; [reflexivity|]. cbn.
  destruct (chr_eqb a NUL); [reflexivity|].
  apply chr_eqb_false in Ha. rewrite Ha, IH. reflexivity.
Qed.

Lemma char_at_end (s : list ascii) : char_at s (length s) = NUL.
Proof. unfold char_at. apply nth_overflow. lia. Qed.

(** A string with no percent sign compiles to one literal segment that
    spans it. *)
Lemma compile_plain (fs : list ascii) (name_len : Z) (room : nat)
    (l : pvlayout) :
  fs <> [] -> no_nul fs -> Forall (fun a => a <> "%"%char) fs ->
  compile_loop fs name_len (S room) 0 l
  = ([ {| seg_string := InFormat 0; seg_length := Z.of_nat (length fs) |} ], l).
Proof.
  intros Hne Hnul Hpct. destruct fs as [|a fs]; [contradiction|].
  cbn [compile_loop]. unfold char_at at 1 2. cbn [nth].
  inversion Hnul as [|? ? Ha Hnul']; subst.
  inversion Hpct as [|? ? Hp Hpct']; subst.
  apply chr_eqb_false in Ha.
  assert (Hp' : chr_eqb "%" a = false)
    by (apply chr_eqb_false; congruence).
  rewrite Ha, Hp'. unfold compile_literal. cbn [drop].
  rewrite (strchr_absent _ _ Hpct), (strlen_no_nul _ Hnul).
  replace (S (0 + length (a :: fs) - 1)) with (length (a :: fs))
    by (cbn; lia).
  destruct room; cbn [compile_loop]; [reflexivity|].
  rewrite char_at_end. change (chr_eqb NUL NUL) with true. reflexivity.
Qed.

(** A format string without directives is rendered as it stands: when it
    fits the terminal and the previous line was no longer, the line of a
    render is the format string itself. *)
Theorem plain_format_round_trip (e : env) (st : pvstate)
    (elapsed_sec : Q) (bytes_since_last total_bytes : Z) :
  let fs := formatstr (opts st) in
  fs <> [] -> no_nul fs -> Forall (fun a => a <> "%"%char) fs ->
  0 <= total_bytes ->
  numeric (opts st) = false ->
  malloc_ok e = true ->
  0 <= width (opts st) -> 2 * width (opts st) + 80 < 2 ^ 32 ->
  buffer_ok (out st) ->
  Z.of_nat (length fs) <= width (opts st) ->
  prev_length (out st) <= Z.of_nat (length fs) ->
  (pv__format e (pv__format_init st)
     elapsed_sec bytes_since_last total_bytes).2 = Some fs.
Proof.
  intros fs Hne Hnul Hpct Htb Hnum Hmalloc Hw Hwrap Hbuf Hfit Hprev.
  assert (Hok : (ensure_buffer e (opts st) (out st)).2 = true).
  { destruct (ensure_buffer_flag e (opts st) (out st)) as (_ & _ & _ & Hno).
    destruct (ensure_buffer e (opts st) (out st)).2; [reflexivity|].
    destruct (Hno eq_refl) as [Hm _]. congruence. }
  set (st0 := pv__format_init st).
  assert (Hfmt : format (layout st0)
                 = [ {| seg_string := InFormat 0;
                        seg_length := Z.of_nat (length fs) |}; terminator ]).
  { subst st0. unfold pv__format_init. fold fs.
    rewrite (compile_plain fs _ 98 _ Hne Hnul Hpct). reflexivity. }
  assert (Ho : opts st0 = opts st) by (subst st0; unfold pv__format_init;
    destruct (compile_loop _ _ _ _ _); reflexivity).
  assert (Hout : out st0 = out st) by (subst st0; unfold pv__format_init;
    destruct (compile_loop _ _ _ _ _); reflexivity).
  pose proof (pv__format_line e st0 elapsed_sec bytes_since_last total_bytes
                Htb) as Hline.
  rewrite Ho, Hout in Hline. specialize (Hline Hnum Hok). cbv zeta in Hline.
  rewrite Hline. cbn [snd]. f_equal.
  destruct (ensure_buffer_room e (opts st) (out st) Hw Hwrap Hbuf)
    as (H80 & H2w & Hint & _ & Hpw & Hpl).
  match goal with
  | |- context [format_line ?e ?s ?a ?b ?c ?d ?f] =>
      pose proof (format_line_shape e s a b c d f) as Hshape;
      pose proof (format_line_frame e s a b c d f) as Hframe;
      set (r := format_line e s a b c d f) in *
  end.
  cbn [out opts layout set_out set_stats] in Hshape, Hframe.
  rewrite Ho in Hshape.
  specialize (Hshape H80 H2w). cbv zeta in Hshape.
  destruct Hshape as (Hr & _ & _ & Hsize).
  destruct Hframe as (Hopts & Hlayout & _).
  assert (Hwhole : whole_line r.1 = fs).
  { unfold whole_line. rewrite Hlayout, Hfmt, Hsize, Hopts, Ho, Hint.
    cbn [assemble_whole seg_string seg_length terminator].
    unfold deref. rewrite Hopts, Ho. fold fs. cbn [drop].
    assert (Hlen : 0 < Z.of_nat (length fs))
      by (destruct fs; [contradiction | cbn; lia]).
    destruct (Z.gtb_spec (Z.of_nat (length fs)) 0); [|lia].
    destruct (Z.eqb_spec (Z.of_nat (length fs)) 0); [lia|].
    destruct (Z.gtb_spec (Z.of_nat (length fs) + 0)
                (display_buffer_size
                   (ensure_buffer e (opts st) (out st)).1 - 2)); [lia|].
    destruct (Z.gtb_spec (Z.of_nat (length fs) + 0) (width (opts st)));
      [lia|].
    cbn [orb]. change (drop 0 fs) with fs.
    rewrite app_nil_r, (strlen_no_nul _ Hnul).
    rewrite Nat2Z.id, firstn_all. apply firstn_all. }
  rewrite Hr, Hwhole, Hpl.
  destruct (Z.ltb_spec 0 (prev_length (out st) - Z.of_nat (length fs))); [lia|].
  cbn. apply app_nil_r.
Qed.

End Plain.

(** ** The bar for an unknown size *)

Section Indeterminate.

Context `{PvInternal} `{Libc}.

Lemma no_nul_spaces (n : nat) : no_nul (spaces n).
Proof. unfold no_nul, spaces. apply Forall_replicate. discriminate. Qed.

Lemma to_int_small (x : Z) : 0 <= x < 2 ^ 31 -> to_int x = x.
Proof.
  intros Hx. unfold to_int. rewrite Z.mod_small by lia.
  destruct (Z.ltb_spec x (2 ^ 31)); lia.
Qed.

(** The marker of the bar: [k] spaces, the marker, and spaces up to the
    width. *)
Lemma bar_unknown_shape (w p : Z) :
  16 <= PV_SIZEOF_STR_PROGRESS ->
  0 <= w <= PV_SIZEOF_STR_PROGRESS - 16 -> 0 <= p <= 200 ->
  let q := if p >? 100 then 200 - p else p in
  let k := w * q / 100 in
  0 <= k <= w
  /\ bar_unknown w p
     = lit "[" ++ spaces (Z.to_nat k) ++ lit "<=>"
         ++ spaces (Z.to_nat (w - k)) ++ lit "]".
Proof.
  intros Hbuf Hw Hp q k.
  assert (Hq : 0 <= q <= 100)
    by (subst q; destruct (Z.gtb_spec p 100); lia).
  assert (Hk : 0 <= k <= w).
  { subst k. split; [apply Z.div_pos; nia|].
    apply Z.div_le_upper_bound; nia. }
  split; [exact Hk|].
  unfold bar_unknown. rewrite (to_int_small p) by lia. fold q.
  unfold c_div. rewrite Z.quot_div_nonneg by nia. fold k.
  unfold for_upto.
  rewrite (fill_loop w " "%char) by (cbn; lia).
  rewrite Z.sub_0_r, Z2Nat.id by lia.
  replace (Z.min (0 + k) w - Z.min 0 w) with k by lia.
  rewrite cat_fits by (rewrite length_app, length_replicate; cbn; lia).
  replace (0 + k) with k by lia.
  rewrite space_loop
    by (rewrite !length_app, length_replicate; cbn; lia).
  rewrite cat_fits
    by (rewrite !length_app; unfold spaces; rewrite !length_replicate;
        cbn; lia).
  unfold spaces. rewrite <- !app_assoc. reflexivity.
Qed.

(** With no size to measure against, the progress block draws a three
    character marker between brackets, [w * q / 100] columns from the left
    of a bar [w] columns wide, where [q] sweeps up to 100 and back as the
    saved counter runs from 0 to 199.  The block takes what the rest of the
    line leaves of the terminal, and leaves the counter alone. *)
Theorem indeterminate_bar (o : pvopts) (s : pvstats)
    (static_portion_size : Z) :
  16 <= PV_SIZEOF_STR_PROGRESS < 2 ^ 31 ->
  size o <= 0 -> 0 <= percentage s <= 199 ->
  0 <= static_portion_size -> static_portion_size + 5 <= width o < 2 ^ 31 ->
  let w := Z.min (width o - static_portion_size - 5)
                 (PV_SIZEOF_STR_PROGRESS - 16) in
  let q := if percentage s >? 100 then 200 - percentage s else percentage s in
  let k := w * q / 100 in
  0 <= k <= w
  /\ render_progress o s static_portion_size
     = (lit "[" ++ spaces (Z.to_nat k) ++ lit "<=>"
          ++ spaces (Z.to_nat (w - k)) ++ lit "]", s)
  /\ Z.of_nat (length (render_progress o s static_portion_size).1) = w + 5
  /\ (render_progress o s static_portion_size).1
     = (render_progress o (set_percentage (200 - percentage s) s)
          static_portion_size).1.
Proof.
  intros Hbuf Hsize Hp Hsps Hwidth w q k.
  assert (Hcw : clamp_width (to_int (u32 (width o - static_portion_size - 5)))
                = w).
  { unfold u32. rewrite Z.mod_small by lia. rewrite to_int_small by lia.
    unfold clamp_width. rewrite (to_int_small PV_SIZEOF_STR_PROGRESS) by lia.
    destruct (Z.ltb_spec (width o - static_portion_size - 5) 0); [lia|].
    destruct (Z.gtb_spec (width o - static_portion_size - 5)
                (PV_SIZEOF_STR_PROGRESS - 16)); lia. }
  assert (Hw : 0 <= w <= PV_SIZEOF_STR_PROGRESS - 16) by lia.
  assert (Hrender : forall s', 0 <= percentage s' <= 200 ->
            render_progress o s' static_portion_size
            = (bar_unknown w (percentage s'), s')
            /\ Z.of_nat (length (bar_unknown w (percentage s'))) = w + 5).
  { intros s' Hp'.
    destruct (bar_unknown_shape w (percentage s') ltac:(lia) Hw Hp')
      as (Hk' & Hbar).
    cbv zeta in Hk', Hbar.
    assert (Hlen : Z.of_nat (length (bar_unknown w (percentage s'))) = w + 5).
    { rewrite Hbar, !length_app. unfold spaces. rewrite !length_replicate.
      cbn. lia. }
    split; [|exact Hlen].
    unfold render_progress. destruct (Z.gtb_spec (size o) 0); [lia|].
    rewrite Hcw.
    assert (Hnn : no_nul (bar_unknown w (percentage s'))).
    { rewrite Hbar. unfold no_nul. rewrite !Forall_app.
      repeat split; try apply no_nul_spaces;
        repeat constructor; discriminate. }
    rewrite (strlen_no_nul _ Hnn), Hlen.
    destruct (Z.gtb_spec (w + 5 + static_portion_size) (width o)); [lia|].
    reflexivity. }
  destruct (Hrender s ltac:(lia)) as (Hr & Hlen).
  destruct (bar_unknown_shape w (percentage s) ltac:(lia) Hw ltac:(lia))
    as (Hk & Hbar).
  cbv zeta in Hk, Hbar. fold q k in Hk, Hbar.
  split; [exact Hk|]. rewrite Hr. cbn [fst].
  split; [rewrite Hbar; reflexivity|]. split; [exact Hlen|].
  destruct (Hrender (set_percentage (200 - percentage s) s)) as (Hr' & _);
    [cbn [set_percentage percentage]; lia|].
  rewrite Hr'. cbn [fst set_percentage percentage].
  unfold bar_unknown. rewrite !to_int_small by lia.
  destruct (Z.gtb_spec (percentage s) 100),
           (Z.gtb_spec (200 - percentage s) 100); try lia;
    try (replace (200 - (200 - percentage s)) with (percentage s) by lia;
         reflexivity).
  replace (percentage s) with 100 by lia. reflexivity.
Qed.

End Indeterminate.

(** ** Numeric mode *)

Section Numeric.

Context `{PvInternal} `{Libc}.

Lemma fmt_ld_percent (n : Z) :
  0 <= n <= 100 -> (length (fmt_ld n) <= 3)%nat.
Proof.
  intros Hn. rewrite <- (Z2Nat.id n) by lia.
  assert (Hk : (Z.to_nat n <= 100)%nat) by lia.
  generalize dependent (Z.to_nat n). clear. intros k Hk.
  do 101 (destruct k as [|k]; [vm_compute; lia|]). lia.
Qed.



End Numeric.

(** ** Recompiling, the preview, and what a render leaves alone *)

Section Configuration.

Context `{PvInternal} `{Libc}.

(** The compiled segments and the mask do not depend on the preview length
    the compilation starts from, and the preview length it ends with is
    either set by a preview directive or the one it started from. *)
Lemma compile_loop_preview (fs : list ascii) (name_len : Z) (room : nat) :
  forall strpos l l',
    components_used l = components_used l' ->
    let r := compile_loop fs name_len room strpos l in
    let r' := compile_loop fs name_len room strpos l' in
    r.1 = r'.1
    /\ components_used r.2 = components_used r'.2
    /\ (lastoutput_length r.2 = lastoutput_length r'.2
        \/ (lastoutput_length r.2 = lastoutput_length l
            /\ lastoutput_length r'.2 = lastoutput_length l')).
Proof.
  induction room as [|room IH]; intros strpos l l' Hc; cbn [compile_loop].
  - cbn. auto.
  - destruct (chr_eqb (char_at fs strpos) NUL); [cbn; auto|].
    destruct (chr_eqb "%" (char_at fs strpos)).
    + unfold compile_directive.
      destruct (scan_digits (drop (S strpos) fs) 0 (S strpos)) as [num p].
      destruct (directive_of (char_at fs p));
        match goal with
        | |- context [compile_loop fs name_len room ?q ?a] =>
            match goal with
            | |- context [compile_loop fs name_len room q ?b] =>
                lazymatch a with
                | b => fail
                | _ =>
                    let Hi := fresh "Hi" in
                    assert (Hi := IH q a b);
                    destruct (compile_loop fs name_len room q a) as [sa la];
                    destruct (compile_loop fs name_len room q b) as [sb lb]
                end
            end
        end;
        cbn in Hi |- *; rewrite ?Hc in Hi;
        destruct (Hi eq_refl) as (-> & -> & Hl);
        (split; [reflexivity|]); (split; [reflexivity|]);
        (destruct Hl as [Hl | [Hl1 Hl2]];
         [left; exact Hl
         |first [right; split; assumption | left; congruence]]).
    + destruct (compile_literal fs strpos) as [seg p].
      specialize (IH (S p) l l' Hc). cbv zeta in IH.
      destruct (compile_loop fs name_len room (S p) l) as [sa la].
      destruct (compile_loop fs name_len room (S p) l') as [sb lb].
      cbn in IH |- *. destruct IH as (-> & -> & Hl).
      split; [reflexivity|]. split; [reflexivity|]. exact Hl.
Qed.

(** Compiling the format of a state a second time changes nothing: the
    layout, the options, the statistics, the output buffer, the exit status
    and every scratch buffer are those of the first compilation. *)
Theorem format_init_idempotent (st : pvstate) :
  let a := pv__format_init st in
  let b := pv__format_init a in
  layout b = layout a /\ opts b = opts a /\ stats b = stats a
  /\ out b = out a /\ exit_status b = exit_status a
  /\ forall k, strs b k = strs a k.
Proof.
  intros a b.
  pose (nm := fun o : pvopts =>
          match name o with
          | Some n => pv_snprintf PV_SIZEOF_STR_NAME
                        (pad_left 9 " " (fmt_s_prec 500 n) ++ lit ":")
          | None => []
          end).
  pose (compiled := fun s : pvstate =>
          compile_loop (formatstr (opts s))
            (Z.of_nat (strlen (nm (opts s)))) 99 0
            {| format := []; components_used := 0;
               lastoutput_length := lastoutput_length (layout s) |}).
  assert (Hinit : forall s,
            opts (pv__format_init s) = opts s
            /\ stats (pv__format_init s) = stats s
            /\ out (pv__format_init s) = out s
            /\ exit_status (pv__format_init s) = exit_status s
            /\ strs (pv__format_init s)
               = <[str_eta := []]>
                   (<[str_progress := []]>
                      (<[str_average_rate := []]>
                         (<[str_rate := []]>
                            (<[str_timer := []]>
                               (<[str_transferred := []]>
                                  (<[str_name := nm (opts s)]> (strs s)))))))
            /\ layout (pv__format_init s)
               = {| format := (compiled s).1 ++ [terminator];
                    components_used := components_used (compiled s).2;
                    lastoutput_length := lastoutput_length (compiled s).2 |}).
  { intros s. subst compiled nm. cbv beta. unfold pv__format_init.
    destruct (compile_loop _ _ _ _ _) as [segs l]. cbn. tauto. }
  destruct (Hinit st) as (Ho & Hst & Hout & Hex & Hstr & Hlay).
  destruct (Hinit a) as (Ho' & Hst' & Hout' & Hex' & Hstr' & Hlay').
  fold a in Ho, Hst, Hout, Hex, Hstr, Hlay.
  fold b in Ho', Hst', Hout', Hex', Hstr', Hlay'.
  split; [|split; [exact Ho'|split; [exact Hst'|split; [exact Hout'|
           split; [exact Hex'|]]]]].
  - rewrite Hlay', Hlay. subst compiled. cbv beta. rewrite Ho.
    match goal with
    | |- context [compile_loop ?fs ?n ?room ?p
                    {| format := []; components_used := 0;
                       lastoutput_length := lastoutput_length (layout a) |}] =>
        pose proof (compile_loop_preview fs n room p
                      {| format := []; components_used := 0;
                         lastoutput_length := lastoutput_length (layout st) |}
                      {| format := []; components_used := 0;
                         lastoutput_length := lastoutput_length (layout a) |}
                      eq_refl) as Hp
    end.
    cbv zeta in Hp. cbn [lastoutput_length] in Hp.
    destruct Hp as (Hs & Hc & Hl).
    assert (Hla : lastoutput_length (layout a)
                  = lastoutput_length
                      (compile_loop (formatstr (opts st))
                         (Z.of_nat (strlen (nm (opts st)))) 99 0
                         {| format := []; components_used := 0;
                            lastoutput_length :=
                              lastoutput_length (layout st) |}).2)
      by (rewrite Hlay; reflexivity).
    rewrite <- Hs, <- Hc. f_equal.
    destruct Hl as [Hl | [Hl0 Hl1]]; [symmetry; exact Hl|].
    rewrite Hl1. exact Hla.
  - intros k. rewrite Hstr', Hstr, Ho. destruct k; reflexivity.
Qed.

(** A preview directive leaves a preview length within the preview
    buffer, and no later directive takes it out again. *)
Lemma compile_loop_preview_length (fs : list ascii) (name_len : Z)
    (room : nat) :
  1 <= PV_SIZEOF_LASTOUTPUT_BUFFER ->
  forall strpos l,
    let r := compile_loop fs name_len room strpos l in
    field str_lastoutput 0 ∈ r.1 ->
    1 <= lastoutput_length r.2 <= PV_SIZEOF_LASTOUTPUT_BUFFER.
Proof.
  intros Hsz.
  assert (Hkeep : forall room strpos l,
            1 <= lastoutput_length l <= PV_SIZEOF_LASTOUTPUT_BUFFER ->
            1 <= lastoutput_length (compile_loop fs name_len room strpos l).2
              <= PV_SIZEOF_LASTOUTPUT_BUFFER).
  { clear room. induction room as [|room IH]; intros strpos l Hl;
      cbn [compile_loop]; [exact Hl|].
    destruct (chr_eqb (char_at fs strpos) NUL); [exact Hl|].
    destruct (chr_eqb "%" (char_at fs strpos)).
    - unfold compile_directive.
      destruct (scan_digits (drop (S strpos) fs) 0 (S strpos)) as [num p].
      destruct (directive_of (char_at fs p));
        match goal with
        | |- context [compile_loop fs name_len room ?q ?a] =>
            let Hi := fresh "Hi" in
            assert (Hi := IH q a);
            destruct (compile_loop fs name_len room q a) as [sa la]
        end;
        cbn in Hi |- *; apply Hi; try exact Hl.
      destruct (Z.gtb_spec num PV_SIZEOF_LASTOUTPUT_BUFFER);
        match goal with
        | |- context [if ?x <? 1 then _ else _] => destruct (Z.ltb_spec x 1)
        end; lia.
    - destruct (compile_literal fs strpos) as [seg p].
      specialize (IH (S p) l Hl).
      destruct (compile_loop fs name_len room (S p) l) as [sa la].
      exact IH. }
  induction room as [|room IH]; intros strpos l; cbn [compile_loop].
  - cbn. intros Hin. inversion Hin.
  - destruct (chr_eqb (char_at fs strpos) NUL);
      [cbn; intros Hin; inversion Hin|].
    destruct (chr_eqb "%" (char_at fs strpos)).
    + unfold compile_directive.
      destruct (scan_digits (drop (S strpos) fs) 0 (S strpos)) as [num p].
      destruct (directive_of (char_at fs p)) eqn:Ed;
        match goal with
        | |- context [compile_loop fs name_len room ?q ?a] =>
            let Hi := fresh "Hi" in
            let Hk := fresh "Hk" in
            assert (Hi := IH q a);
            assert (Hk := Hkeep room q a);
            destruct (compile_loop fs name_len room q a) as [sa la]
        end;
        cbn in Hi, Hk |- *; intros Hin;
        apply elem_of_cons in Hin as [Hin | Hin];
        try discriminate Hin; try (apply Hi; exact Hin).
      apply Hk.
      destruct (Z.gtb_spec num PV_SIZEOF_LASTOUTPUT_BUFFER);
        match goal with
        | |- context [if ?x <? 1 then _ else _] => destruct (Z.ltb_spec x 1)
        end; lia.
    + destruct (compile_literal fs strpos) as [seg p] eqn:El.
      specialize (IH (S p) l).
      destruct (compile_loop fs name_len room (S p) l) as [sa la].
      cbn in IH |- *. intros Hin. apply elem_of_cons in Hin as [Hin | Hin];
        [|apply IH; exact Hin].
      unfold compile_literal in El. injection El as <- _. discriminate Hin.
Qed.

(** The preview of the last bytes written.  When the compiled format has
    a preview segment, the preview length lies between 1 and the size of
    the preview buffer, and a render shows that many characters: each byte
    of the buffer as it is when it is printable, and as a dot when not. *)
Theorem preview_is_printable (st : pvstate) :
  1 <= PV_SIZEOF_LASTOUTPUT_BUFFER ->
  let st' := pv__format_init st in
  field str_lastoutput 0 ∈ format (layout st') ->
  let text := render_lastoutput (opts st') (layout st') in
  1 <= lastoutput_length (layout st') <= PV_SIZEOF_LASTOUTPUT_BUFFER
  /\ Z.of_nat (length text) = lastoutput_length (layout st')
  /\ Forall (fun c => isprint c = true) text
  /\ no_nul text
  /\ forall i c,
       lastoutput_buffer (opts st) !! i = Some c ->
       (i < length text)%nat ->
       text !! i = Some (if isprint c then c else "."%char).
Proof.
  intros Hsz st' Hin text.
  assert (Hlen : 1 <= lastoutput_length (layout st')
                 <= PV_SIZEOF_LASTOUTPUT_BUFFER).
  { subst st'. unfold pv__format_init in Hin |- *.
    match goal with
    | |- context [compile_loop ?fs ?n ?room ?p ?l] =>
        pose proof (compile_loop_preview_length fs n room Hsz p l) as Hp;
        destruct (compile_loop fs n room p l) as [segs l']
    end.
    cbn in Hin, Hp |- *. apply Hp.
    apply elem_of_app in Hin as [Hin | Hin]; [exact Hin|].
    apply list_elem_of_singleton in Hin. discriminate Hin. }
  assert (Ho : opts st' = opts st)
    by (subst st'; unfold pv__format_init;
        destruct (compile_loop _ _ _ _ _); reflexivity).
  assert (Hprint : forall c, isprint (if isprint c then c else "."%char) = true).
  { intros c. destruct (isprint c) eqn:E; [exact E | reflexivity]. }
  split; [exact Hlen|].
  subst text. unfold render_lastoutput.
  split; [rewrite length_fmap, length_seq; lia|].
  split; [apply Forall_fmap, Forall_forall; intros i _; apply Hprint|].
  split.
  { apply Forall_fmap, Forall_forall. intros i _. cbn. intros Hnul.
    specialize (Hprint (char_at (lastoutput_buffer (opts st')) i)).
    rewrite Hnul in Hprint. discriminate Hprint. }
  intros i c Hc Hi. rewrite length_fmap, length_seq in Hi.
  rewrite list_lookup_fmap, lookup_seq_lt by exact Hi. cbn.
  rewrite Ho. unfold char_at. rewrite (nth_lookup_Some _ _ _ _ Hc).
  reflexivity.
Qed.

Ltac untouched :=
  repeat first
    [ rewrite if_insert_ne by discriminate
    | rewrite fn_lookup_insert_ne by discriminate ].

Lemma render_fields_name (e : env) (st : pvstate)
    (elapsed_sec rate average_rate : Q) (bytes_since_last total_bytes : Z) :
  render_fields e st elapsed_sec rate average_rate
    bytes_since_last total_bytes str_name
  = strs st str_name.
Proof. unfold render_fields. cbv zeta. untouched. reflexivity. Qed.

Lemma pv__format_configuration (e : env) (st : pvstate)
    (elapsed_sec : Q) (bytes_since_last total_bytes : Z) :
  let st' := (pv__format e st elapsed_sec bytes_since_last total_bytes).1 in
  opts st' = opts st /\ layout st' = layout st
  /\ strs st' str_name = strs st str_name
  /\ (exit_status st' = exit_status st
      \/ exit_status st' = Z.lor (exit_status st) 64
         /\ malloc_ok e = false).
Proof.
  cbv zeta.
  destruct (pv__format_paths e st elapsed_sec bytes_since_last total_bytes)
    as (Hrel & Hfail & Hnum & Hline).
  cbv zeta in Hrel, Hfail, Hnum, Hline.
  destruct (Z.ltb_spec total_bytes 0) as [Hneg | Hpos].
  { rewrite (Hrel Hneg). cbn. tauto. }
  destruct (ensure_buffer e (opts st) (out st)).2 eqn:Eok.
  - destruct (numeric (opts st)) eqn:En.
    + rewrite (Hnum Hpos eq_refl eq_refl). cbn. tauto.
    + rewrite (Hline Hpos eq_refl eq_refl). cbn [fst].
      match goal with
      | |- context [format_line ?e ?s ?a ?b ?c ?d ?f] =>
          destruct (format_line_frame e s a b c d f) as (Ho & Hl & He & _);
          pose proof (format_line_strs e s a b c d f str_name
                        ltac:(discriminate)) as Hs
      end.
      rewrite render_fields_name in Hs.
      rewrite Ho, Hl, He, Hs. cbn. tauto.
  - rewrite (Hfail Hpos eq_refl). cbn.
    destruct (ensure_buffer_flag e (opts st) (out st)) as (_ & _ & _ & Hno).
    destruct (Hno Eok) as [Hm _]. tauto.
Qed.

(** Rendering never touches what was configured: after any sequence of
    renders the options, the compiled format and the name field are what
    they were, and the exit status has gained at most the bit of a failed
    allocation. *)
Theorem renders_leave_configuration (st : pvstate) (calls : list call) :
  let now := run st calls in
  opts now = opts st /\ layout now = layout st
  /\ strs now str_name = strs st str_name
  /\ (exit_status now = exit_status st
      \/ exit_status now = Z.lor (exit_status st) 64
         /\ exists c, c ∈ calls /\ malloc_ok (call_env c) = false).
Proof.
  cbv zeta. induction calls as [|c calls IH] using rev_ind.
  - cbn. tauto.
  - rewrite run_snoc. unfold render.
    destruct (pv__format_configuration (call_env c) (run st calls)
                (call_elapsed_sec c) (call_bytes_since_last c)
                (call_total_bytes c)) as (Ho & Hl & Hs & He).
    destruct IH as (Ho' & Hl' & Hs' & He').
    rewrite Ho, Hl, Hs. repeat (split; [assumption|]).
    destruct He as [He | [He Hm]]; rewrite He.
    + destruct He' as [He' | (He' & c' & Hc' & Hm')]; [left; exact He'|].
      right. split; [exact He'|]. exists c'. split; [|exact Hm'].
      apply elem_of_app. left. exact Hc'.
    + right. split.
      * destruct He' as [He' | (He' & _)]; rewrite He'; [reflexivity|].
        rewrite <- Z.lor_assoc. reflexivity.
      * exists c. split; [|exact Hm]. apply elem_of_app. right.
        apply list_elem_of_singleton. reflexivity.
Qed.

End Configuration.

(** ** Amounts below zero *)

(** The scaler has no case for a negative amount: it is below 1.0 however
    often it is multiplied, so the second loop runs to the bottom of the
    prefix table.  The amount comes back multiplied by the eighth power of
    the ratio, under the smallest prefix. *)
Theorem si_prefix_negative (v r : Q) (is_bytes : bool) :
  (v < 0)%Q -> (0 < r)%Q ->
  let scaled := (pv__si_prefix v r is_bytes).1 in
  let prefix := (pv__si_prefix v r is_bytes).2 in
  (scaled == v * qpow r 8)%Q
  /\ prefix = (if is_bytes then lit "yi" else lit "y").
Proof.
  intros Hv Hr. cbv zeta. unfold pv__si_prefix.
  assert (Hne : ld_eq 0 v = false).
  { unfold ld_eq. destruct (Qeq_bool 0 v) eqn:E; [|reflexivity].
    apply Qeq_bool_iff in E. lra. }
  rewrite Hne.
  destruct (pfx_facts is_bytes) as (Hmid & _ & _ & _). cbv zeta in Hmid.
  rewrite Hmid.
  assert (Hup : forall above,
            si_up r (r * 0.97)%Q above v 8 " "%char = (v, 8%nat, " "%char)).
  { intros above. destruct above; cbn [si_up];
      (replace (ld_lt (r * 0.97)%Q v) with false; [reflexivity|]);
      symmetry; apply ld_lt_false; nra. }
  rewrite Hup.
  set (pfx := if is_bytes then pfx_024 else pfx_000).
  destruct (si_down_spec pfx r Hr 8 v " "%char) as (m & Hdown).
  destruct (si_down pfx r v 8 " "%char) as [v2 p2].
  destruct Hdown as (Hm & Hv2 & _ & _ & Hstop & Hp2).
  assert (Hneg : (v2 < 0)%Q).
  { rewrite Hv2. pose proof (qpow_pos r m Hr). nra. }
  assert (Hm8 : m = 8%nat) by (destruct Hstop as [Hge | Hm8]; [lra | exact Hm8]).
  subst m. cbn [fst snd].
  assert (Hy : p2 = "y"%char)
    by (rewrite Hp2; subst pfx; destruct is_bytes; reflexivity).
  rewrite Hy. destruct is_bytes; (split; [exact Hv2 | reflexivity]).
Qed.

(** ** The buffer-percentage field *)

Section BufferPercent.

Context `{PvInternal} `{Libc}.

(** The field that shows how full the transfer buffer is.  Without a
    transfer buffer and without splice it stays empty, so its directive adds
    nothing to the line; with a buffer whose read position is at most one
    buffer ahead of the write position it is six characters wide whatever
    the percentage. *)
Theorem bufpercent_field (e : env) (st : pvstate)
    (elapsed_sec rate average_rate : Q) (bytes_since_last total_bytes : Z) :
  let text := render_fields e st elapsed_sec rate average_rate
                bytes_since_last total_bytes str_bufpercent in
  let o := opts st in
  (buffer_size o <= 0 -> HAVE_SPLICE && splice_used o = false -> text = [])
  /\ (uses (layout st) PV_DISPLAY_BUFPERCENT = true ->
      7 <= PV_SIZEOF_STR_BUFPERCENT ->
      0 < buffer_size o ->
      0 <= read_position o - write_position o <= buffer_size o ->
      length text = 6%nat /\ no_nul text).
Proof.
  cbv zeta. unfold render_fields. cbv zeta.
  repeat first
    [ rewrite if_insert_ne by discriminate
    | rewrite fn_lookup_insert_ne by discriminate ].
  rewrite if_insert_eq.
  repeat first
    [ rewrite if_insert_ne by discriminate
    | rewrite fn_lookup_insert_ne by discriminate ].
  rewrite fn_lookup_insert. split.
  - intros Hbuf Hsplice. unfold render_bufpercent. rewrite Hsplice.
    destruct (Z.gtb_spec (buffer_size (opts st)) 0); [lia|].
    destruct (uses _ _); reflexivity.
  - intros Huse Hsz Hbuf Hpos. rewrite Huse. unfold render_bufpercent.
    destruct (Z.gtb_spec (buffer_size (opts st)) 0); [|lia].
    set (p := pv__calc_percentage _ _).
    assert (Hp : 0 <= p <= 100).
    { subst p. unfold pv__calc_percentage, c_div.
      destruct (Z.ltb_spec (buffer_size (opts st)) 1); [lia|].
      rewrite Z.quot_div_nonneg by lia.
      split; [apply Z.div_pos; lia | apply Z.div_le_upper_bound; lia]. }
    pose proof (fmt_ld_percent p Hp) as Hlen.
    assert (Hnn : no_nul (fmt_ld_w 3 p)).
    { unfold fmt_ld_w, pad_left. apply no_nul_app; [|apply no_nul_fmt_ld].
      apply Forall_replicate. discriminate. }
    assert (Hw : length (fmt_ld_w 3 p) = 3%nat).
    { unfold fmt_ld_w, pad_left. rewrite length_app, length_replicate. lia. }
    unfold pv_snprintf.
    destruct (HAVE_SPLICE && splice_used (opts st)).
    + rewrite take_ge by (cbn; lia). split; [reflexivity|].
      repeat constructor; discriminate.
    + rewrite take_ge by (rewrite !length_app, Hw; cbn; lia).
      split; [rewrite !length_app, Hw; reflexivity|].
      apply no_nul_app; [repeat constructor; discriminate|].
      apply no_nul_app; [exact Hnn | repeat constructor; discriminate].
Qed.

End BufferPercent.

(** ** The further properties on sample runs *)

Section FurtherRuns.

Import Sample.

Lemma returned_line_is_buffer_witness :
  let r := pv__format sample_env (sample_state "copying" 0 80) 1 10 10 in
  r.2 = Some (lit "copying")
  /\ Z.of_nat (length (lit "copying"))
     <= Z.max 0 (display_buffer_size (out r.1) - 1).
Proof.
  intros r.
  assert (Hline : r.2 = Some (lit "copying")) by (vm_compute; reflexivity).
  split; [exact Hline|].
  destruct (returned_line_is_buffer sample_env
              (sample_state "copying" 0 80) 1 10 10) as [_ Hlen].
  exact (Hlen _ Hline).
Defined.

Lemma release_is_idempotent_witness :
  let r := pv__format sample_env (sample_state "%p" 100 80) 1 10 (-1) in
  pv__format sample_env r.1 2 10 (-1) = (r.1, None).
Proof.
  intros r.
  destruct (release_is_idempotent sample_env sample_env
              (sample_state "%p" 100 80) 1 2 10 10 (-1) (-1))
    as (_ & _ & _ & _ & _ & _ & _ & _ & _ & Hagain).
  - reflexivity.
  - reflexivity.
  - exact Hagain.
Defined.

Lemma allocation_failure_witness :
  let e := {| malloc_ok := false; time_now := 0;
              local_strftime := fun _ _ => None |} in
  let r := pv__format e (sample_state "%p" 100 80) 1 10 10 in
  r.2 = None /\ Z.testbit (exit_status r.1) 6 = true.
Proof.
  intros e r.
  destruct (allocation_failure e (sample_state "%p" 100 80) 1 10 10)
    as (Hnone & Hbit & _).
  - discriminate.
  - reflexivity.
  - split; [exact Hnone | exact Hbit].
Defined.

Lemma line_within_width_witness :
  let c := {| call_env := sample_env; call_elapsed_sec := 1;
              call_bytes_since_last := 10; call_total_bytes := 10 |} in
  let st := sample_state "%t %b" 0 80 in
  buffer_ok (out (run st [c; c])).
Proof.
  intros c st.
  destruct (line_within_width st [c; c] c) as [Hok _].
  - discriminate.
  - reflexivity.
  - reflexivity.
  - left. reflexivity.
  - discriminate.
  - exact Hok.
Defined.

Lemma mask_matches_segments_witness :
  let l := layout (pv__format_init (sample_state "%t %e" 100 80)) in
  Z.land (components_used l) PV_DISPLAY_ETA = PV_DISPLAY_ETA.
Proof.
  intros l.
  destruct (mask_matches_segments (sample_state "%t %e" 100 80))
    as [_ Hall].
  apply (Hall (field str_eta 0)).
  vm_compute. do 2 right. left.
Defined.

Lemma plain_format_round_trip_witness :
  (pv__format sample_env (pv__format_init (sample_state "copying" 0 80))
     1 10 10).2
  = Some (lit "copying").
Proof.
  apply (plain_format_round_trip sample_env (sample_state "copying" 0 80)).
  - discriminate.
  - vm_compute. repeat constructor; discriminate.
  - vm_compute. repeat constructor; discriminate.
  - discriminate.
  - reflexivity.
  - reflexivity.
  - discriminate.
  - reflexivity.
  - left. reflexivity.
  - discriminate.
  - discriminate.
Defined.

Lemma indeterminate_bar_witness :
  Z.of_nat
    (length (render_progress (sample_opts "%p" 0 40)
               (set_percentage 150 sample_stats) 0).1)
  = 40.
Proof.
  destruct (indeterminate_bar (sample_opts "%p" 0 40)
              (set_percentage 150 sample_stats) 0)
    as (_ & _ & Hlen & _).
  - split; [discriminate | reflexivity].
  - discriminate.
  - split; discriminate.
  - discriminate.
  - split; [discriminate | reflexivity].
  - exact Hlen.
Defined.


Lemma preview_is_printable_witness :
  let st := pv__format_init (sample_state "%4A" 0 80) in
  Z.of_nat (length (render_lastoutput (opts st) (layout st))) = 4.
Proof.
  intros st.
  destruct (preview_is_printable (sample_state "%4A" 0 80))
    as (_ & Hlen & _).
  - discriminate.
  - vm_compute. left.
  - exact Hlen.
Defined.

Lemma si_prefix_negative_witness :
  (pv__si_prefix (-5) 1000 false).2 = lit "y".
Proof.
  destruct (si_prefix_negative (-5) 1000 false) as [_ Hprefix].
  - reflexivity.
  - reflexivity.
  - exact Hprefix.
Defined.

Lemma bufpercent_field_witness :
  let o := {| numeric := false; linemode := false; bits := false;
              size := 0; width := 80; name := None;
              default_format := lit "%T"; format_string := None;
              initial_offset := 0; buffer_size := 100;
              read_position := 60; write_position := 10;
              splice_used := false; lastoutput_buffer := [] |} in
  length (render_fields sample_env (sample_state_with o) 1 10 10 10 10
            str_bufpercent) = 6%nat.
Proof.
  intros o.
  destruct (bufpercent_field sample_env (sample_state_with o) 1 10 10 10 10)
    as [_ Hwide].
  destruct Hwide as [Hlen _].
  - reflexivity.
  - discriminate.
  - reflexivity.
  - split; discriminate.
  - exact Hlen.
Defined.

End FurtherRuns.
